(** * Event-sourced bank accounts: aggregate, event store, projector, routes

    A shallow embedding of the TypeScript sources of the write and read
    paths,

    - [types.ts]                (module [Types]),
    - [domain/BankAccount.ts]   (module [BankAccount]),
    - [seeds/init.sql]          (module [Schema]),
    - [lib/EventStore.ts]       (module [EventStore]),
    - [lib/Projector.ts]        (module [Projector]),
    - [routes.ts]               (module [Routes], and module [Queries]
                                 for the event and transaction queries),

    followed by the vocabulary of the properties and by the properties of
    the event-sourcing engine: the aggregate's commands, the projector,
    the event log, snapshots, the balance of a session, the point-in-time
    query and the rebuild of the read models; then further properties of
    the stores, the projector, the handlers and the queries.  The
    projection routes ([/projections/rebuild], which answers before the
    rebuild has run, and [/projections/status]) and the start-up of the
    server are not modelled.

    Modelling conventions.

    - A JavaScript [number] holding an amount, a balance, a version or an
      event number is a [Z].  The arithmetic of the program ([+], [-],
      [<=], [%]) is the arithmetic of doubles, which agrees with that of
      [Z] on whole numbers up to [max_safe]; an amount that is missing or
      not a number, a fraction, and a balance that leaves this range are
      outside this embedding.  Module [Doubles] has [apply], [hydrate]
      and the snapshot once more on doubles, for the snapshot of a
      balance that is not such a whole number.  A [Date] is the [Z] of
      its epoch milliseconds.
    - A string is a sequence of one-byte characters.
    - A [Set<string>] is a [gset string]; [Array.from] of it is [elements].
    - A method that mutates [this] and may [throw] is a function from the
      object to a completion and the object afterwards (module [Js]).
    - [uuidv4()] and [new Date()] are inputs of the function that calls
      them.
    - A table is the collection of its rows under its key constraints
      (PRIMARY KEY, UNIQUE): a [gmap] from the primary key, or, for the
      append-only [events] table, the list of rows in insertion order.
      The widths of the columns (VARCHAR(n), INTEGER, UUID) and the
      precision of DECIMAL(19,4) are not checks of the tables' operations
      but limits stated apart ([event_fits], [snapshot_fits],
      [request_fits], [within_limits]): within them every INSERT and
      UPDATE of the program stores what it is given, and the properties
      of what is stored, of sums and of the read models carry them as
      hypotheses.  A transaction that throws leaves the database as it
      was.
    - A value written to a JSONB column comes back as [JSON.parse] of its
      [JSON.stringify]: a whole number and a string as they are, a [Set]
      as an object without entries ([EventStore.jsonb]).
    - [ORDER BY] is a sort by the stated key; no property below depends on
      how rows with equal keys are ordered.
    - The program is modelled one request at a time. *)

From Stdlib Require Import ZArith Lia.
From Stdlib Require PrimFloat.
From stdpp Require Import gmap strings list sorting.

Local Open Scope Z_scope.

(** ** Completions *)

Module Js.

(** What is thrown: [new Error(message)] by the aggregate, the
    concurrency error of [EventStore.save] (whose message is built from
    the event number and the aggregate id), or a key violation raised by
    the storage engine on INSERT. *)
Inductive Exception :=
| Error (message : string)
| ConcurrencyConflict (eventNumber : Z) (aggregateId : string)
| UniqueViolation (constraint : string).

(** How a call ends: it returns, or it throws. *)
Inductive Completion :=
| Return
| Throw (ex : Exception).

End Js.

Import Js.

(** ** types.ts *)

Module Types.

Inductive EventType :=
| AccountCreated
| MoneyDeposited
| MoneyWithdrawn
| AccountClosed.

(** [eventData] is typed [any] in the source and cast according to
    [eventType]; here the payload carries its kind. *)
Inductive EventData :=
| AccountCreatedData (ownerName : string) (initialBalance : Z) (currency : string)
| MoneyDepositedData (amount : Z) (description : option string) (transactionId : string)
| MoneyWithdrawnData (amount : Z) (description : option string) (transactionId : string)
| AccountClosedData (reason : option string).

Record DomainEvent := {
  eventId : string;
  aggregateId : string;
  aggregateType : string;
  eventData : EventData;
  eventNumber : Z;
  timestamp : Z;
  version : Z
}.

Definition eventType (e : DomainEvent) : EventType :=
  match eventData e with
  | AccountCreatedData _ _ _ => AccountCreated
  | MoneyDepositedData _ _ _ => MoneyDeposited
  | MoneyWithdrawnData _ _ _ => MoneyWithdrawn
  | AccountClosedData _ => AccountClosed
  end.

Inductive Status := OPEN | CLOSED.

Record BankAccountState := {
  accountId : string;
  ownerName : string;
  balance : Z;
  currency : string;
  status : Status;
  processedTransactionIds : gset string
}.

#[export] Instance EventType_eq_dec : EqDecision EventType.
Proof. solve_decision. Defined.

#[export] Instance Status_eq_dec : EqDecision Status.
Proof. solve_decision. Defined.

End Types.

Import Types.

(** ** domain/BankAccount.ts *)

Module BankAccount.

(** The object: [state], the uncommitted [changes], the private [version]. *)
Record t := mk {
  state : BankAccountState;
  changes : list DomainEvent;
  version : Z
}.

(** The value of [processedTransactionIds] in a snapshot's [data]:
    an array, a [Set], or anything else. *)
Inductive JsIds :=
| IdsArray (ids : list string)
| IdsSet (ids : gset string)
| IdsOther.

(** [snapshot.data]: the fields spread into [account.state]. *)
Record SnapshotData := {
  s_accountId : string;
  s_ownerName : string;
  s_balance : Z;
  s_currency : string;
  s_status : Status;
  s_processedTransactionIds : JsIds
}.

Record Snapshot := {
  data : SnapshotData;
  lastEventNumber : Z
}.

(** [constructor()] *)
Definition new : t :=
  {| state := {| accountId := EmptyString; ownerName := EmptyString; balance := 0;
                 currency := EmptyString;
                 status := CLOSED; processedTransactionIds := ∅ |};
     changes := [];
     version := 0 |}.

(** [apply(event)].  [Number(x)] of a number is that number, and [+] and
    [-] are exact while the amounts and the balance are safe integers
    ([exact_history], [within_limits]). *)
Definition apply (event : DomainEvent) (this : t) : t :=
  let st := state this in
  let st' :=
    match eventData event with
    | AccountCreatedData owner initial cur =>
        {| accountId := aggregateId event; ownerName := owner; balance := initial;
           currency := cur; status := OPEN;
           processedTransactionIds := processedTransactionIds st |}
    | MoneyDepositedData amount _ transactionId =>
        {| accountId := accountId st; ownerName := ownerName st;
           balance := balance st + amount;
           currency := currency st; status := status st;
           processedTransactionIds := {[ transactionId ]} ∪ processedTransactionIds st |}
    | MoneyWithdrawnData amount _ transactionId =>
        {| accountId := accountId st; ownerName := ownerName st;
           balance := balance st - amount;
           currency := currency st; status := status st;
           processedTransactionIds := {[ transactionId ]} ∪ processedTransactionIds st |}
    | AccountClosedData _ =>
        {| accountId := accountId st; ownerName := ownerName st;
           balance := balance st;
           currency := currency st; status := CLOSED;
           processedTransactionIds := processedTransactionIds st |}
    end in
  {| state := st'; changes := changes this; version := Types.version event |}.

(** [this.changes.push(event)] *)
Definition push (event : DomainEvent) (this : t) : t :=
  {| state := state this; changes := changes this ++ [event]; version := version this |}.

(** [static create(id, ownerName, initialBalance, currency)] *)
Definition create (id owner : string) (initialBalance : Z) (cur : string)
    (uuid : string) (now : Z) : t :=
  let account := new in
  let event :=
    {| eventId := uuid; aggregateId := id; aggregateType := "BankAccount";
       eventData := AccountCreatedData owner initialBalance cur;
       eventNumber := 1; timestamp := now; Types.version := 1 |} in
  push event (apply event account).

(** [deposit(amount, description, transactionId)].  The amount is a
    number: a value that is not one fails none of the tests below and
    has no counterpart here. *)
Definition deposit (amount : Z) (description : option string) (transactionId : string)
    (uuid : string) (now : Z) (this : t) : Completion * t :=
  if decide (status (state this) = CLOSED) then (Throw (Error "Account is closed"), this)
  else if amount <=? 0 then (Throw (Error "Deposit amount must be positive"), this)
  else if decide (transactionId ∈ processedTransactionIds (state this)) then (Return, this)
  else
    let newVersion := version this + 1 in
    let event :=
      {| eventId := uuid; aggregateId := accountId (state this);
         aggregateType := "BankAccount";
         eventData := MoneyDepositedData amount description transactionId;
         eventNumber := newVersion; timestamp := now; Types.version := newVersion |} in
    (Return, push event (apply event this)).

(** [withdraw(amount, description, transactionId)].  The amount and the
    balance are numbers, as for [deposit]. *)
Definition withdraw (amount : Z) (description : option string) (transactionId : string)
    (uuid : string) (now : Z) (this : t) : Completion * t :=
  if decide (status (state this) = CLOSED) then (Throw (Error "Account is closed"), this)
  else if amount <=? 0 then (Throw (Error "Withdrawal amount must be positive"), this)
  else if balance (state this) <? amount then (Throw (Error "Insufficient funds"), this)
  else if decide (transactionId ∈ processedTransactionIds (state this)) then (Return, this)
  else
    let newVersion := version this + 1 in
    let event :=
      {| eventId := uuid; aggregateId := accountId (state this);
         aggregateType := "BankAccount";
         eventData := MoneyWithdrawnData amount description transactionId;
         eventNumber := newVersion; timestamp := now; Types.version := newVersion |} in
    (Return, push event (apply event this)).

(** [close(reason)] *)
Definition close (reason : option string) (uuid : string) (now : Z) (this : t)
    : Completion * t :=
  if decide (status (state this) = CLOSED)
  then (Throw (Error "Account is already closed"), this)
  else if negb (balance (state this) =? 0)
  then (Throw (Error "Cannot close account with non-zero balance"), this)
  else
    let newVersion := version this + 1 in
    let event :=
      {| eventId := uuid; aggregateId := accountId (state this);
         aggregateType := "BankAccount";
         eventData := AccountClosedData reason;
         eventNumber := newVersion; timestamp := now; Types.version := newVersion |} in
    (Return, push event (apply event this)).

(** The restored [processedTransactionIds] of [hydrate]. *)
Definition restore_ids (ids : JsIds) : gset string :=
  match ids with
  | IdsArray l => list_to_set l
  | IdsSet s => s
  | IdsOther => ∅
  end.

(** [static hydrate(events, snapshot?)] *)
Definition hydrate (events : list DomainEvent) (snapshot : option Snapshot) : t :=
  let account := new in
  let account :=
    match snapshot with
    | Some snap =>
        let d := data snap in
        {| state := {| accountId := s_accountId d; ownerName := s_ownerName d;
                       balance := s_balance d; currency := s_currency d;
                       status := s_status d;
                       processedTransactionIds :=
                         restore_ids (s_processedTransactionIds d) |};
           changes := changes account;
           version := lastEventNumber snap |}
    | None => account
    end in
  fold_left (fun acc event => apply event acc) events account.

Definition getUncommittedChanges (this : t) : list DomainEvent := changes this.

Definition markChangesAsCommitted (this : t) : t :=
  {| state := state this; changes := []; version := version this |}.

Definition getVersion (this : t) : Z := version this.

Definition getId (this : t) : string := accountId (state this).

End BankAccount.

(** ** seeds/init.sql *)

Module Schema.

(** [snapshots]: one row per [aggregate_id] (UNIQUE); [snapshot_id] and
    [created_at] are never read. *)
Module SnapshotRow.
Record row := {
  snapshot_data : BankAccount.SnapshotData;
  last_event_number : Z
}.
End SnapshotRow.

(** [account_summaries]: PRIMARY KEY [account_id]. *)
Module SummaryRow.
Record row := {
  owner_name : string;
  balance : Z;
  currency : string;
  status : string;
  version : Z
}.
End SummaryRow.

(** [transaction_history]: PRIMARY KEY [transaction_id]. *)
Module TransactionRow.
Record row := {
  account_id : string;
  type : string;
  amount : Z;
  description : string;
  timestamp : Z
}.
End TransactionRow.

(** The database behind [pool].  A row of [events] has the columns of a
    [DomainEvent] ([getEvents] and [rebuild] map them back field by
    field), and the table keeps its rows in insertion order. *)
Record Db := {
  events : list DomainEvent;
  snapshots : gmap string SnapshotRow.row;
  account_summaries : gmap string SummaryRow.row;
  transaction_history : gmap string TransactionRow.row
}.

Definition empty : Db :=
  {| events := []; snapshots := ∅; account_summaries := ∅; transaction_history := ∅ |}.

(** [INSERT INTO events]: [event_id] is the PRIMARY KEY, and
    [(aggregate_id, event_number)] is UNIQUE.  The row is taken to fit
    the columns ([event_fits]); the errors the storage engine raises for
    one that does not (an id that is not a UUID, a string over 255
    characters, a number outside INTEGER) are not modelled, and ids are
    compared as strings, which is how the UUID column compares ids of
    the form [canonical_uuid]. *)
Definition insert_event (r : DomainEvent) (db : Db) : Completion * Db :=
  if bool_decide (Exists (fun r' => eventId r' = eventId r) (events db))
  then (Throw (UniqueViolation "events_pkey"), db)
  else if bool_decide (Exists (fun r' => aggregateId r' = aggregateId r
                                         ∧ eventNumber r' = eventNumber r) (events db))
  then (Throw (UniqueViolation "events_aggregate_id_event_number_key"), db)
  else (Return,
        {| events := events db ++ [r]; snapshots := snapshots db;
           account_summaries := account_summaries db;
           transaction_history := transaction_history db |}).

(** [ORDER BY version ASC] *)
Definition by_version (a b : DomainEvent) : Prop :=
  Types.version a ≤ Types.version b.

(** [ORDER BY timestamp ASC, event_number ASC] *)
Definition by_timestamp_number (a b : DomainEvent) : Prop :=
  Types.timestamp a < Types.timestamp b
  ∨ (Types.timestamp a = Types.timestamp b ∧ eventNumber a ≤ eventNumber b).

#[export] Instance by_version_dec a b : Decision (by_version a b).
Proof. unfold by_version. apply _. Defined.

#[export] Instance by_timestamp_number_dec a b : Decision (by_timestamp_number a b).
Proof. unfold by_timestamp_number. apply _. Defined.

#[export] Instance by_version_trans : Transitive by_version.
Proof. unfold by_version. intros x y z. lia. Qed.

#[export] Instance by_version_total : Total by_version.
Proof. unfold by_version. intros x y. lia. Qed.

#[export] Instance by_timestamp_number_trans : Transitive by_timestamp_number.
Proof. unfold by_timestamp_number. intros x y z. lia. Qed.

#[export] Instance by_timestamp_number_total : Total by_timestamp_number.
Proof. unfold by_timestamp_number. intros x y. lia. Qed.

End Schema.

Import Schema.

(** ** lib/EventStore.ts *)

Module EventStore.

(** [save(event)]: the check and the INSERT run in one transaction; on a
    throw the transaction is rolled back. *)
Definition save (event : DomainEvent) (db : Db) : Completion * Db :=
  let checkResult :=
    filter (fun r => aggregateId r = aggregateId event
                     ∧ eventNumber r = eventNumber event) (events db) in
  if (0 <? Z.of_nat (length checkResult))%Z
  then (Throw (ConcurrencyConflict (eventNumber event) (aggregateId event)), db)
  else
    match insert_event event db with
    | (Return, db') => (Return, db')
    | (Throw ex, _) => (Throw ex, db)
    end.

(** [getEvents(aggregateId, fromVersion = 0)] *)
Definition getEvents (id : string) (fromVersion : Z) (db : Db) : list DomainEvent :=
  merge_sort by_version
    (filter (fun r => aggregateId r = id ∧ fromVersion < Types.version r) (events db)).

(** [JSON.stringify(snapshotData)], stored in the JSONB column and read
    back: an array of ids comes back as it was; a [Set] has no enumerable
    property and is written as [{}], which is neither an array nor a
    [Set] when it is read. *)
Definition jsonb (d : BankAccount.SnapshotData) : BankAccount.SnapshotData :=
  {| BankAccount.s_accountId := BankAccount.s_accountId d;
     BankAccount.s_ownerName := BankAccount.s_ownerName d;
     BankAccount.s_balance := BankAccount.s_balance d;
     BankAccount.s_currency := BankAccount.s_currency d;
     BankAccount.s_status := BankAccount.s_status d;
     BankAccount.s_processedTransactionIds :=
       match BankAccount.s_processedTransactionIds d with
       | BankAccount.IdsArray l => BankAccount.IdsArray l
       | BankAccount.IdsSet _ => BankAccount.IdsOther
       | BankAccount.IdsOther => BankAccount.IdsOther
       end |}.

(** [saveSnapshot(aggregateId, snapshotData, lastEventNumber)] *)
Definition saveSnapshot (id : string) (snapshotData : BankAccount.SnapshotData)
    (lastEventNumber : Z) (db : Db) : Db :=
  {| events := events db;
     snapshots := <[ id := {| SnapshotRow.snapshot_data := jsonb snapshotData;
                              SnapshotRow.last_event_number := lastEventNumber |} ]>
                    (snapshots db);
     account_summaries := account_summaries db;
     transaction_history := transaction_history db |}.

(** [getSnapshot(aggregateId)] *)
Definition getSnapshot (id : string) (db : Db) : option BankAccount.Snapshot :=
  match snapshots db !! id with
  | None => None
  | Some r => Some {| BankAccount.data := SnapshotRow.snapshot_data r;
                      BankAccount.lastEventNumber := SnapshotRow.last_event_number r |}
  end.

End EventStore.

(** ** lib/Projector.ts *)

Module Projector.

(** [description || dflt] *)
Definition or_default (description : option string) (dflt : string) : string :=
  match description with
  | Some s => if decide (s = EmptyString) then dflt else s
  | None => dflt
  end.

Definition set_summaries (m : gmap string SummaryRow.row) (db : Db) : Db :=
  {| events := events db; snapshots := snapshots db;
     account_summaries := m; transaction_history := transaction_history db |}.

Definition set_transactions (m : gmap string TransactionRow.row) (db : Db) : Db :=
  {| events := events db; snapshots := snapshots db;
     account_summaries := account_summaries db; transaction_history := m |}.

(** [INSERT INTO transaction_history ... ON CONFLICT (transaction_id) DO NOTHING] *)
Definition insert_transaction (transactionId : string) (r : TransactionRow.row)
    (db : Db) : Db :=
  match transaction_history db !! transactionId with
  | Some _ => db
  | None => set_transactions (<[ transactionId := r ]> (transaction_history db)) db
  end.

(** [projectAccountCreated]:
    [INSERT INTO account_summaries ... ON CONFLICT (account_id) DO NOTHING] *)
Definition projectAccountCreated (event : DomainEvent)
    (owner : string) (initialBalance : Z) (cur : string) (db : Db) : Db :=
  match account_summaries db !! aggregateId event with
  | Some _ => db
  | None =>
      set_summaries
        (<[ aggregateId event :=
              {| SummaryRow.owner_name := owner; SummaryRow.balance := initialBalance;
                 SummaryRow.currency := cur; SummaryRow.status := "OPEN";
                 SummaryRow.version := Types.version event |} ]> (account_summaries db))
        db
  end.

(** [projectMoneyDeposited].  The sum is that of the DECIMAL(19,4)
    column, exact on whole numbers up to [max_decimal]. *)
Definition projectMoneyDeposited (event : DomainEvent)
    (amount : Z) (description : option string) (transactionId : string) (db : Db) : Db :=
  let db :=
    set_summaries
      (alter (fun r => {| SummaryRow.owner_name := SummaryRow.owner_name r;
                          SummaryRow.balance := SummaryRow.balance r + amount;
                          SummaryRow.currency := SummaryRow.currency r;
                          SummaryRow.status := SummaryRow.status r;
                          SummaryRow.version := Types.version event |})
             (aggregateId event) (account_summaries db)) db in
  insert_transaction transactionId
    {| TransactionRow.account_id := aggregateId event;
       TransactionRow.type := "DEPOSIT";
       TransactionRow.amount := amount;
       TransactionRow.description := or_default description "Deposit";
       TransactionRow.timestamp := Types.timestamp event |} db.

(** [projectMoneyWithdrawn].  The difference is that of the
    DECIMAL(19,4) column, as for [projectMoneyDeposited]. *)
Definition projectMoneyWithdrawn (event : DomainEvent)
    (amount : Z) (description : option string) (transactionId : string) (db : Db) : Db :=
  let db :=
    set_summaries
      (alter (fun r => {| SummaryRow.owner_name := SummaryRow.owner_name r;
                          SummaryRow.balance := SummaryRow.balance r - amount;
                          SummaryRow.currency := SummaryRow.currency r;
                          SummaryRow.status := SummaryRow.status r;
                          SummaryRow.version := Types.version event |})
             (aggregateId event) (account_summaries db)) db in
  insert_transaction transactionId
    {| TransactionRow.account_id := aggregateId event;
       TransactionRow.type := "WITHDRAWAL";
       TransactionRow.amount := amount;
       TransactionRow.description := or_default description "Withdrawal";
       TransactionRow.timestamp := Types.timestamp event |} db.

(** [projectAccountClosed] *)
Definition projectAccountClosed (event : DomainEvent) (db : Db) : Db :=
  set_summaries
    (alter (fun r => {| SummaryRow.owner_name := SummaryRow.owner_name r;
                        SummaryRow.balance := SummaryRow.balance r;
                        SummaryRow.currency := SummaryRow.currency r;
                        SummaryRow.status := "CLOSED";
                        SummaryRow.version := Types.version event |})
           (aggregateId event) (account_summaries db)) db.

(** [project(event)]: one transaction; the early return rolls it back
    before anything was written.  The [catch], which rolls the
    transaction back when a statement fails and logs the error, has no
    counterpart: on events whose fields fit the columns of the read
    models ([request_fits], [within_limits]) no statement fails. *)
Definition project (event : DomainEvent) (db : Db) : Db :=
  let summaryRes := account_summaries db !! aggregateId event in
  let currentVersion :=
    match summaryRes with
    | Some r => SummaryRow.version r
    | None => 0
    end in
  if (Types.version event <=? currentVersion)
     && negb (bool_decide (eventType event = AccountCreated))
  then db
  else
    match eventData event with
    | AccountCreatedData owner initialBalance cur =>
        match summaryRes with
        | None => projectAccountCreated event owner initialBalance cur db
        | Some _ => db
        end
    | MoneyDepositedData amount description transactionId =>
        projectMoneyDeposited event amount description transactionId db
    | MoneyWithdrawnData amount description transactionId =>
        projectMoneyWithdrawn event amount description transactionId db
    | AccountClosedData _ =>
        projectAccountClosed event db
    end.

(** [TRUNCATE TABLE account_summaries, transaction_history] *)
Definition truncate (db : Db) : Db :=
  {| events := events db; snapshots := snapshots db;
     account_summaries := ∅; transaction_history := ∅ |}.

(** [rebuild()] *)
Definition rebuild (db : Db) : Db :=
  let db := truncate db in
  let rows := merge_sort by_timestamp_number (events db) in
  fold_left (fun db event => project event db) rows db.

End Projector.

(** ** routes.ts *)

Module Routes.

Inductive Body :=
| message (m : string)
| error (m : string)
| accountJson (accountId ownerName : string) (balance : Z) (currency status : string)
| balanceAtJson (accountId : string) (balanceAt : Z).

Record Response := {
  code : Z;
  body : Body
}.

(** What [uuidv4()] and [new Date()] return while one request is handled. *)
Record Env := {
  uuid : string;
  now : Z
}.

(** [e.message] in the handlers' inner [catch]; only [Error]s of the
    aggregate are thrown there. *)
Definition exception_message (ex : Exception) : string :=
  match ex with
  | Error m => m
  | ConcurrencyConflict _ _ => "Concurrency conflict"
  | UniqueViolation c => c
  end.

(** [loadBankAccount(accountId)] *)
Definition loadBankAccount (id : string) (db : Db) : BankAccount.t :=
  let snapshot := EventStore.getSnapshot id db in
  let fromVersion :=
    match snapshot with
    | Some snap => BankAccount.lastEventNumber snap
    | None => 0
    end in
  let events := EventStore.getEvents id fromVersion db in
  BankAccount.hydrate events snapshot.

(** [{ ...account.state, processedTransactionIds: Array.from(...) }];
    what the JSONB column makes of it is [EventStore.jsonb]. *)
Definition snapshotData (account : BankAccount.t) : BankAccount.SnapshotData :=
  let st := BankAccount.state account in
  {| BankAccount.s_accountId := accountId st;
     BankAccount.s_ownerName := ownerName st;
     BankAccount.s_balance := balance st;
     BankAccount.s_currency := currency st;
     BankAccount.s_status := status st;
     BankAccount.s_processedTransactionIds :=
       BankAccount.IdsArray (elements (processedTransactionIds st)) |}.

(** The loop over [account.getUncommittedChanges()] of [POST /accounts]:
    save, project, no snapshot. *)
Fixpoint save_created (changes : list DomainEvent) (db : Db) : Completion * Db :=
  match changes with
  | [] => (Return, db)
  | event :: rest =>
      match EventStore.save event db with
      | (Throw ex, db) => (Throw ex, db)
      | (Return, db) => save_created rest (Projector.project event db)
      end
  end.

(** The loop of the deposit, withdraw and close handlers: save, project,
    and a snapshot of the account when the event number is a multiple
    of 50. *)
Fixpoint save_changes (id : string) (account : BankAccount.t)
    (changes : list DomainEvent) (db : Db) : Completion * Db :=
  match changes with
  | [] => (Return, db)
  | event :: rest =>
      match EventStore.save event db with
      | (Throw ex, db) => (Throw ex, db)
      | (Return, db) =>
          let db := Projector.project event db in
          let db :=
            if Z.rem (eventNumber event) 50 =? 0
            then EventStore.saveSnapshot id (snapshotData account) (eventNumber event) db
            else db in
          save_changes id account rest db
      end
  end.

Definition respond (c : Z) (b : Body) : Response := {| code := c; body := b |}.

(** [POST /accounts].  The fields of the body are strings and a number;
    a body without [initialBalance] has no counterpart here. *)
Definition postAccounts (id owner : string) (initialBalance : Z) (cur : string)
    (env : Env) (db : Db) : Response * Db :=
  if bool_decide (id = EmptyString) || bool_decide (owner = EmptyString)
     || (initialBalance <? 0) || bool_decide (cur = EmptyString)
  then (respond 400 (error "Invalid input"), db)
  else
    let existing := loadBankAccount id db in
    if 0 <? BankAccount.getVersion existing
    then (respond 409 (error "Account already exists"), db)
    else
      let account := BankAccount.create id owner initialBalance cur (uuid env) (now env) in
      match save_created (BankAccount.getUncommittedChanges account) db with
      | (Throw _, db) => (respond 500 (error "Internal server error"), db)
      | (Return, db) => (respond 202 (message "Account created"), db)
      end.

(** [POST /accounts/:id/deposit].  [amount] is a number, as for
    [BankAccount.deposit]. *)
Definition postDeposit (id : string) (amount : Z) (description : option string)
    (transactionId : string) (env : Env) (db : Db) : Response * Db :=
  if (amount <=? 0) || bool_decide (transactionId = EmptyString)
  then (respond 400 (error "Invalid input"), db)
  else
    let account := loadBankAccount id db in
    if BankAccount.getVersion account =? 0
    then (respond 404 (error "Account not found"), db)
    else
      match BankAccount.deposit amount description transactionId
              (uuid env) (now env) account with
      | (Throw ex, _) => (respond 409 (error (exception_message ex)), db)
      | (Return, account) =>
          match save_changes id account (BankAccount.getUncommittedChanges account) db with
          | (Throw _, db) => (respond 500 (error "Internal server error"), db)
          | (Return, db) => (respond 202 (message "Deposit accepted"), db)
          end
      end.

(** [POST /accounts/:id/withdraw] *)
Definition postWithdraw (id : string) (amount : Z) (description : option string)
    (transactionId : string) (env : Env) (db : Db) : Response * Db :=
  if (amount <=? 0) || bool_decide (transactionId = EmptyString)
  then (respond 400 (error "Invalid input"), db)
  else
    let account := loadBankAccount id db in
    if BankAccount.getVersion account =? 0
    then (respond 404 (error "Account not found"), db)
    else
      match BankAccount.withdraw amount description transactionId
              (uuid env) (now env) account with
      | (Throw ex, _) => (respond 409 (error (exception_message ex)), db)
      | (Return, account) =>
          match save_changes id account (BankAccount.getUncommittedChanges account) db with
          | (Throw _, db) => (respond 500 (error "Internal server error"), db)
          | (Return, db) => (respond 202 (message "Withdrawal accepted"), db)
          end
      end.

(** [POST /accounts/:id/close] *)
Definition postClose (id : string) (reason : option string)
    (env : Env) (db : Db) : Response * Db :=
  let account := loadBankAccount id db in
  if BankAccount.getVersion account =? 0
  then (respond 404 (error "Account not found"), db)
  else
    match BankAccount.close reason (uuid env) (now env) account with
    | (Throw ex, _) => (respond 409 (error (exception_message ex)), db)
    | (Return, account) =>
        match save_changes id account (BankAccount.getUncommittedChanges account) db with
        | (Throw _, db) => (respond 500 (error "Internal server error"), db)
        | (Return, db) => (respond 202 (message "Account closed"), db)
        end
    end.

(** [GET /accounts/:id] *)
Definition getAccount (id : string) (db : Db) : Response :=
  match account_summaries db !! id with
  | None => respond 404 (error "Account not found")
  | Some row =>
      respond 200 (accountJson id (SummaryRow.owner_name row) (SummaryRow.balance row)
                     (SummaryRow.currency row) (SummaryRow.status row))
  end.

(** [GET /accounts/:id/balance-at/:timestamp]; [targetDate] is the parsed
    parameter, [None] when [isNaN(targetDate.getTime())]. *)
Definition getBalanceAt (id : string) (targetDate : option Z) (db : Db) : Response :=
  match targetDate with
  | None => respond 400 (error "Invalid timestamp format")
  | Some target =>
      let allEvents := EventStore.getEvents id 0 db in
      let relevantEvents := filter (fun e => Types.timestamp e ≤ target) allEvents in
      if Z.of_nat (length relevantEvents) =? 0
      then respond 404 (error "No history found for this account at given time")
      else
        let account := BankAccount.hydrate relevantEvents None in
        respond 200 (balanceAtJson id (balance (BankAccount.state account)))
  end.

(** The commands of the router, and a client's session: requests handled
    one after the other, each with its own [Env]. *)
Inductive Request :=
| PostAccounts (id owner : string) (initialBalance : Z) (cur : string)
| PostDeposit (id : string) (amount : Z) (description : option string)
    (transactionId : string)
| PostWithdraw (id : string) (amount : Z) (description : option string)
    (transactionId : string)
| PostClose (id : string) (reason : option string).

Definition handle (req : Request) (env : Env) (db : Db) : Response * Db :=
  match req with
  | PostAccounts id owner initialBalance cur => postAccounts id owner initialBalance cur env db
  | PostDeposit id amount description transactionId =>
      postDeposit id amount description transactionId env db
  | PostWithdraw id amount description transactionId =>
      postWithdraw id amount description transactionId env db
  | PostClose id reason => postClose id reason env db
  end.

Fixpoint run (reqs : list (Request * Env)) (db : Db) : list Response * Db :=
  match reqs with
  | [] => ([], db)
  | (req, env) :: rest =>
      let '(r, db) := handle req env db in
      let '(rs, db) := run rest db in
      (r :: rs, db)
  end.

End Routes.

(** ** routes.ts, the event and transaction queries *)

Module Queries.

(** An item of [GET /accounts/:id/events]. *)
Record EventJson := {
  eventId : string;
  eventType : Types.EventType;
  eventNumber : Z;
  data : EventData;
  timestamp : Z
}.

(** An item of [GET /accounts/:id/transactions]. *)
Record TransactionJson := {
  transactionId : string;
  type : string;
  amount : Z;
  description : string;
  t_timestamp : Z
}.

(** [totalPages] is [None] when [Math.ceil] gives no finite number (a page
    size of 0), which JSON writes as [null]. *)
Inductive Body :=
| error (m : string)
| eventsJson (items : list EventJson)
| pageJson (currentPage pageSize : Z) (totalPages : option Z) (totalCount : Z)
    (items : list TransactionJson).

Record Response := {
  code : Z;
  body : Body
}.

Definition respond (c : Z) (b : Body) : Response := {| code := c; body := b |}.

(** [e => ({ eventId, eventType, eventNumber, data, timestamp })] *)
Definition eventJson (e : DomainEvent) : EventJson :=
  {| eventId := Types.eventId e; eventType := Types.eventType e;
     eventNumber := Types.eventNumber e; data := eventData e;
     timestamp := Types.timestamp e |}.

(** [GET /accounts/:id/events] *)
Definition getAccountEvents (id : string) (db : Db) : Response :=
  let events := EventStore.getEvents id 0 db in
  if (Z.of_nat (length events) =? 0)
     && bool_decide (account_summaries db !! id = None)
  then respond 404 (error "Account not found")
  else respond 200 (eventsJson (map eventJson events)).

(** [ORDER BY timestamp DESC] on the rows of [transaction_history], each
    with its key. *)
Definition by_timestamp_desc (a b : string * TransactionRow.row) : Prop :=
  TransactionRow.timestamp (snd b) ≤ TransactionRow.timestamp (snd a).

#[global] Instance by_timestamp_desc_dec a b : Decision (by_timestamp_desc a b).
Proof. unfold by_timestamp_desc. apply _. Defined.

#[global] Instance by_timestamp_desc_trans : Transitive by_timestamp_desc.
Proof. unfold by_timestamp_desc. intros x y z. lia. Qed.

#[global] Instance by_timestamp_desc_total : Total by_timestamp_desc.
Proof. unfold by_timestamp_desc. intros x y. lia. Qed.

(** [SELECT * FROM transaction_history WHERE account_id = $1] *)
Definition transactions_of (id : string) (db : Db) : list (string * TransactionRow.row) :=
  filter (fun kr => TransactionRow.account_id (snd kr) = id)
         (map_to_list (transaction_history db)).

(** [row => ({ transactionId, type, amount, description, timestamp })] *)
Definition transactionJson (kr : string * TransactionRow.row) : TransactionJson :=
  {| transactionId := fst kr; type := TransactionRow.type (snd kr);
     amount := TransactionRow.amount (snd kr);
     description := TransactionRow.description (snd kr);
     t_timestamp := TransactionRow.timestamp (snd kr) |}.

(** [GET /accounts/:id/transactions]; [page] and [pageSize] are what
    [parseInt] returns for the query parameters (or for their defaults
    ['1'] and ['10']), [None] for [NaN].  The storage engine rejects a
    LIMIT or OFFSET that is not a number or is negative, and the handler
    then answers 500.  The arithmetic is that of integers, which is what
    the handler computes as long as [page * pageSize] is a safe integer. *)
Definition getTransactions (id : string) (page pageSize : option Z) (db : Db) : Response :=
  match page, pageSize with
  | Some page, Some pageSize =>
      let offset := (page - 1) * pageSize in
      let totalCount := Z.of_nat (length (transactions_of id db)) in
      let totalPages :=
        if pageSize =? 0 then None
        else Some (- ((- totalCount) / pageSize)) in
      if (pageSize <? 0) || (offset <? 0)
      then respond 500 (error "Internal server error")
      else
        let rows :=
          take (Z.to_nat pageSize)
            (drop (Z.to_nat offset) (merge_sort by_timestamp_desc (transactions_of id db))) in
        respond 200 (pageJson page pageSize totalPages totalCount
                       (map transactionJson rows))
  | _, _ => respond 500 (error "Internal server error")
  end.

End Queries.

(** * Vocabulary of the properties *)

(** The failures of the aggregate, by the name the design gives them. *)
Definition ErrAccountClosed : Exception := Error "Account is closed".
Definition ErrInsufficientFunds : Exception := Error "Insufficient funds".
Definition ErrAlreadyClosed : Exception := Error "Account is already closed".
Definition ErrNonZeroBalance : Exception :=
  Error "Cannot close account with non-zero balance".

(** A command sent to an existing aggregate. *)
Inductive Command :=
| Deposit (amount : Z) (description : option string) (transactionId : string)
| Withdraw (amount : Z) (description : option string) (transactionId : string)
| Close (reason : option string).

Definition execute (c : Command) (uuid : string) (now : Z) (a : BankAccount.t)
    : Completion * BankAccount.t :=
  match c with
  | Deposit amount description transactionId =>
      BankAccount.deposit amount description transactionId uuid now a
  | Withdraw amount description transactionId =>
      BankAccount.withdraw amount description transactionId uuid now a
  | Close reason => BankAccount.close reason uuid now a
  end.

(** The aggregates reachable by accepted commands from a [create] with
    the given initial balance. *)
Inductive reachable (initial : Z) : BankAccount.t -> Prop :=
| reachable_create id owner cur uuid now :
    reachable initial (BankAccount.create id owner initial cur uuid now)
| reachable_execute a c uuid now a' :
    reachable initial a ->
    execute c uuid now a = (Return, a') ->
    reachable initial a'
| reachable_committed a :
    reachable initial a ->
    reachable initial (BankAccount.markChangesAsCommitted a).

(** Replaying [events] onto an aggregate, as the loop of [hydrate] does. *)
Definition replay (events : list DomainEvent) (a : BankAccount.t) : BankAccount.t :=
  fold_left (fun acc event => BankAccount.apply event acc) events a.

(** A run of events numbered [k+1], [k+2], ... without gaps. *)
Fixpoint gapless (k : Z) (events : list DomainEvent) : Prop :=
  match events with
  | [] => True
  | e :: rest => Types.version e = k + 1 /\ gapless (k + 1) rest
  end.

(** The version the summary table holds for an account, 0 without a row:
    [currentVersion] in [project]. *)
Definition stored_version (row : option SummaryRow.row) : Z :=
  match row with
  | Some r => SummaryRow.version r
  | None => 0
  end.

(** The guard of [project], on the account's summary row. *)
Definition skipped (e : DomainEvent) (row : option SummaryRow.row) : bool :=
  (Types.version e <=? stored_version row)
  && negb (bool_decide (eventType e = AccountCreated)).

(** [project] seen from the summary row of the event's account. *)
Definition summary_step (e : DomainEvent) (row : option SummaryRow.row)
    : option SummaryRow.row :=
  if skipped e row then row
  else
    match eventData e with
    | AccountCreatedData owner initialBalance cur =>
        match row with
        | Some _ => row
        | None =>
            Some {| SummaryRow.owner_name := owner; SummaryRow.balance := initialBalance;
                    SummaryRow.currency := cur; SummaryRow.status := "OPEN";
                    SummaryRow.version := Types.version e |}
        end
    | MoneyDepositedData amount _ _ =>
        (fun r => {| SummaryRow.owner_name := SummaryRow.owner_name r;
                     SummaryRow.balance := SummaryRow.balance r + amount;
                     SummaryRow.currency := SummaryRow.currency r;
                     SummaryRow.status := SummaryRow.status r;
                     SummaryRow.version := Types.version e |}) <$> row
    | MoneyWithdrawnData amount _ _ =>
        (fun r => {| SummaryRow.owner_name := SummaryRow.owner_name r;
                     SummaryRow.balance := SummaryRow.balance r - amount;
                     SummaryRow.currency := SummaryRow.currency r;
                     SummaryRow.status := SummaryRow.status r;
                     SummaryRow.version := Types.version e |}) <$> row
    | AccountClosedData _ =>
        (fun r => {| SummaryRow.owner_name := SummaryRow.owner_name r;
                     SummaryRow.balance := SummaryRow.balance r;
                     SummaryRow.currency := SummaryRow.currency r;
                     SummaryRow.status := "CLOSED";
                     SummaryRow.version := Types.version e |}) <$> row
    end.

(** The transaction id of a deposit or withdrawal event. *)
Definition transaction_id (e : DomainEvent) : option string :=
  match eventData e with
  | MoneyDepositedData _ _ transactionId => Some transactionId
  | MoneyWithdrawnData _ _ transactionId => Some transactionId
  | _ => None
  end.

(** The transaction-history row a deposit or withdrawal event inserts. *)
Definition transaction_row (e : DomainEvent) : option TransactionRow.row :=
  match eventData e with
  | MoneyDepositedData amount description _ =>
      Some {| TransactionRow.account_id := aggregateId e;
              TransactionRow.type := "DEPOSIT";
              TransactionRow.amount := amount;
              TransactionRow.description := Projector.or_default description "Deposit";
              TransactionRow.timestamp := Types.timestamp e |}
  | MoneyWithdrawnData amount description _ =>
      Some {| TransactionRow.account_id := aggregateId e;
              TransactionRow.type := "WITHDRAWAL";
              TransactionRow.amount := amount;
              TransactionRow.description := Projector.or_default description "Withdrawal";
              TransactionRow.timestamp := Types.timestamp e |}
  | _ => None
  end.

(** [project] seen from the transaction-history row of one id, given the
    summary row of the event's account. *)
Definition transaction_step (t : string) (e : DomainEvent)
    (summary : option SummaryRow.row) (row : option TransactionRow.row)
    : option TransactionRow.row :=
  match row with
  | Some _ => row
  | None =>
      if skipped e summary then None
      else if decide (transaction_id e = Some t) then transaction_row e else None
  end.

(** An event with the aggregate id and event number of [e] is stored. *)
Definition conflicts (e : DomainEvent) (db : Db) : Prop :=
  Exists (fun r => aggregateId r = aggregateId e /\ eventNumber r = eventNumber e)
         (events db).

(** The database with [e] appended to the event log. *)
Definition append_event (e : DomainEvent) (db : Db) : Db :=
  {| events := events db ++ [e]; snapshots := snapshots db;
     account_summaries := account_summaries db;
     transaction_history := transaction_history db |}.

(** The events of one aggregate, in the order they were appended. *)
Definition history (id : string) (db : Db) : list DomainEvent :=
  filter (fun e => aggregateId e = id) (events db).

(** The snapshot a handler stores for an aggregate: its serialized state,
    tagged with the number of the event just applied. *)
Definition snapshot_of (a : BankAccount.t) : BankAccount.Snapshot :=
  {| BankAccount.data := Routes.snapshotData a;
     BankAccount.lastEventNumber := BankAccount.version a |}.

(** The [status] column for a status of the aggregate. *)
Definition status_column (s : Status) : string :=
  match s with
  | OPEN => "OPEN"
  | CLOSED => "CLOSED"
  end.

(** The summary row that mirrors an aggregate. *)
Definition summary_of (a : BankAccount.t) : SummaryRow.row :=
  {| SummaryRow.owner_name := ownerName (BankAccount.state a);
     SummaryRow.balance := balance (BankAccount.state a);
     SummaryRow.currency := currency (BankAccount.state a);
     SummaryRow.status := status_column (status (BankAccount.state a));
     SummaryRow.version := BankAccount.version a |}.

(** The shape of a stored history: versions and event numbers 1, 2, ...
    in order, opened by the only AccountCreated event. *)
Definition well_formed (h : list DomainEvent) : Prop :=
  gapless 0 h
  /\ Forall (fun e => eventNumber e = Types.version e) h
  /\ match h with
     | [] => True
     | e :: rest =>
         eventType e = AccountCreated
         /\ Forall (fun e => eventType e <> AccountCreated) rest
     end.

(** The tables agree on one account: its history is well formed, its
    snapshot, if any, is the serialized state after some prefix of the
    history, and its summary row mirrors the replayed history. *)
Definition account_consistent (id : string) (db : Db) : Prop :=
  let h := history id db in
  well_formed h
  /\ match snapshots db !! id with
     | None => True
     | Some row =>
         exists k : nat,
           (k <= length h)%nat
           /\ SnapshotRow.last_event_number row = Z.of_nat k
           /\ SnapshotRow.snapshot_data row
              = Routes.snapshotData (BankAccount.hydrate (take k h) None)
     end
  /\ account_summaries db !! id
     = match h with
       | [] => None
       | _ => Some (summary_of (BankAccount.hydrate h None))
       end.

Definition consistent (db : Db) : Prop := forall id, account_consistent id db.

(** The database after one iteration of a handler's loop on event [e] of
    aggregate [a]: the event appended and projected, and the snapshot
    taken when the handler takes snapshots and the number is due. *)
Definition commit (snapshots : bool) (id : string) (a : BankAccount.t)
    (e : DomainEvent) (db : Db) : Db :=
  let db := Projector.project e (append_event e db) in
  if snapshots && (Z.rem (eventNumber e) 50 =? 0)
  then EventStore.saveSnapshot id (Routes.snapshotData a) (eventNumber e) db
  else db.

Definition account_of (req : Routes.Request) : string :=
  match req with
  | Routes.PostAccounts id _ _ _ => id
  | Routes.PostDeposit id _ _ _ => id
  | Routes.PostWithdraw id _ _ _ => id
  | Routes.PostClose id _ => id
  end.

Definition command_of (req : Routes.Request) : option Command :=
  match req with
  | Routes.PostAccounts _ _ _ _ => None
  | Routes.PostDeposit _ amount description transactionId =>
      Some (Deposit amount description transactionId)
  | Routes.PostWithdraw _ amount description transactionId =>
      Some (Withdraw amount description transactionId)
  | Routes.PostClose _ reason => Some (Close reason)
  end.

(** What handling a request does to a consistent database. *)
Inductive outcome (req : Routes.Request) (env : Routes.Env) (db : Db)
    : Routes.Response -> Db -> Prop :=
| outcome_rejected r :
    Routes.code r <> 202 ->
    outcome req env db r db
| outcome_retried c r :
    let a := BankAccount.hydrate (history (account_of req) db) None in
    command_of req = Some c ->
    history (account_of req) db <> [] ->
    execute c (Routes.uuid env) (Routes.now env) a = (Return, a) ->
    Routes.code r = 202 ->
    outcome req env db r db
| outcome_created id owner initialBalance cur e r :
    let a := BankAccount.create id owner initialBalance cur
               (Routes.uuid env) (Routes.now env) in
    req = Routes.PostAccounts id owner initialBalance cur ->
    0 <= initialBalance ->
    history id db = [] ->
    BankAccount.changes a = [e] ->
    Routes.code r = 202 ->
    outcome req env db r (commit false id a e db)
| outcome_executed c e r :
    let a := BankAccount.hydrate (history (account_of req) db) None in
    command_of req = Some c ->
    history (account_of req) db <> [] ->
    execute c (Routes.uuid env) (Routes.now env) a
    = (Return, BankAccount.push e (BankAccount.apply e a)) ->
    Routes.code r = 202 ->
    outcome req env db r
      (commit true (account_of req) (BankAccount.push e (BankAccount.apply e a)) e db).






Definition accepted (r : Routes.Response) : Prop := Routes.code r = 202.

(** The loop of [rebuild]: the rows projected one after the other. *)
Definition replayed (rows : list DomainEvent) (db : Db) : Db :=
  fold_left (fun db event => Projector.project event db) rows db.

(** [project] seen from the summary row of an account and the
    transaction row of an id together. *)
Definition rows_step (t : string) (rows : option SummaryRow.row * option TransactionRow.row)
    (e : DomainEvent) : option SummaryRow.row * option TransactionRow.row :=
  (summary_step e (fst rows), transaction_step t e (fst rows) (snd rows)).

(** A transaction id is used for one account only. *)
Definition transactions_local (l : list DomainEvent) : Prop :=
  forall e1 e2 t,
    e1 ∈ l -> e2 ∈ l ->
    transaction_id e1 = Some t -> transaction_id e2 = Some t ->
    aggregateId e1 = aggregateId e2.

(** The events of each account are numbered 1, 2, ... in the order they
    were appended, and their timestamps never decrease. *)
Definition histories_ordered (l : list DomainEvent) : Prop :=
  forall id,
    let h := filter (fun e => aggregateId e = id) l in
    gapless 0 h
    /\ Forall (fun e => eventNumber e = Types.version e) h
    /\ StronglySorted (fun x y => Types.timestamp x <= Types.timestamp y) h.

(** The transaction id a command carries. *)
Definition command_transaction (c : Command) : option string :=
  match c with
  | Deposit _ _ t => Some t
  | Withdraw _ _ t => Some t
  | Close _ => None
  end.

Definition transaction_of (req : Routes.Request) : option string :=
  match command_of req with
  | Some c => command_transaction c
  | None => None
  end.

(** The clock read by the requests on one account never steps back. *)
Definition clock_monotone (reqs : list (Routes.Request * Routes.Env)) : Prop :=
  StronglySorted
    (fun r1 r2 => account_of (fst r1) = account_of (fst r2) ->
                  Routes.now (snd r1) <= Routes.now (snd r2)) reqs.

(** No transaction id is sent to two different accounts. *)
Definition transactions_per_account (reqs : list (Routes.Request * Routes.Env)) : Prop :=
  forall r1 r2 t,
    r1 ∈ reqs -> r2 ∈ reqs ->
    transaction_of (fst r1) = Some t -> transaction_of (fst r2) = Some t ->
    account_of (fst r1) = account_of (fst r2).

(** Every account with events replays to a reachable aggregate, created
    with a non-negative initial balance. *)
Definition loaded_reachable (db : Db) : Prop :=
  forall id,
    history id db <> [] ->
    exists initial,
      0 <= initial /\ reachable initial (BankAccount.hydrate (history id db) None).

(** The keys of the event log are unique: no two events share an id, and
    no two share an aggregate id and event number. *)
Definition unique_keys (db : Db) : Prop :=
  NoDup (map eventId (events db))
  /\ NoDup (map (fun e => (aggregateId e, eventNumber e)) (events db)).

(** An aggregate after a list of commands, each with the id and the time
    of its event; a command that throws leaves the aggregate as it is. *)
Definition execute_all (cmds : list (Command * string * Z)) (a : BankAccount.t)
    : BankAccount.t :=
  fold_left (fun a c => snd (execute (fst (fst c)) (snd (fst c)) (snd c) a)) cmds a.


(** What a handler can do to a database, whatever it holds: nothing, or
    accept the request and commit one event, stamped with the request's
    id and time, whose keys were free. *)
Definition handled (req : Routes.Request) (env : Routes.Env) (db : Db)
    (result : Routes.Response * Db) : Prop :=
  snd result = db
  \/ (Routes.code (fst result) = 202
      /\ exists b a e,
           ~ conflicts e db
           /\ ~ Exists (fun r => eventId r = eventId e) (events db)
           /\ eventId e = Routes.uuid env
           /\ Types.timestamp e = Routes.now env
           /\ snd result = commit b (account_of req) a e db).






(** The life of an account as its events tell it: an open account has
    events, none of them AccountClosed; a closed one has no events yet or
    ends with its only AccountClosed event. *)
Definition lifecycle (h : list DomainEvent) : Prop :=
  match status (BankAccount.state (BankAccount.hydrate h None)) with
  | OPEN => h <> [] /\ Forall (fun e => eventType e <> AccountClosed) h
  | CLOSED =>
      h = []
      \/ exists l e,
           h = l ++ [e] /\ eventType e = AccountClosed
           /\ Forall (fun e => eventType e <> AccountClosed) l
  end.



(** ** The limits of the tables and of the numbers

    The embedding is exact on strings that fit their columns and on whole
    numbers that the program's arithmetic and the DECIMAL(19,4) columns
    hold exactly.  The properties that depend on what is stored or on a
    sum carry these limits as hypotheses; nothing is said outside them. *)

(** The largest safe integer of a JavaScript number, [2^53 - 1]. *)
Definition max_safe : Z := 9007199254740991.




Definition safe_integer (z : Z) : bool := Z.abs z <=? max_safe.




(** A string the database stores as text: no NUL character. *)
Definition text (s : string) : bool :=
  forallb (fun c => negb (Ascii.eqb c Ascii.zero)) (String.list_ascii_of_string s).

Definition optional_text (s : option string) : bool :=
  match s with
  | Some s => text s
  | None => true
  end.




(** The payload of an event that the JSONB column holds as it is. *)
Definition data_fits (d : EventData) : bool :=
  match d with
  | AccountCreatedData owner initialBalance cur =>
      text owner && safe_integer initialBalance && text cur
  | MoneyDepositedData amount description transactionId =>
      safe_integer amount && optional_text description && text transactionId
  | MoneyWithdrawnData amount description transactionId =>
      safe_integer amount && optional_text description && text transactionId
  | AccountClosedData reason => optional_text reason
  end.





(** The money a run of requests can bring into the accounts: the initial
    balances and the deposits. *)
Fixpoint volume (reqs : list (Routes.Request * Routes.Env)) : Z :=
  match reqs with
  | [] => 0
  | (Routes.PostAccounts _ _ initialBalance _, _) :: rest =>
      Z.max 0 initialBalance + volume rest
  | (Routes.PostDeposit _ amount _ _, _) :: rest => Z.max 0 amount + volume rest
  | _ :: rest => volume rest
  end.


(** A history whose amounts and whose balance after every prefix are safe
    integers: replaying it rounds nothing. *)
Definition exact_history (h : list DomainEvent) : bool :=
  forallb (fun e => data_fits (eventData e)) h
  && forallb (fun k => safe_integer
                         (balance (BankAccount.state (BankAccount.hydrate (take k h) None))))
             (seq 0 (S (length h))).



(** ** The aggregate on doubles

    [apply], [hydrate] and the snapshot of the handlers once more, with
    the amounts and the balance as the IEEE 754 doubles of a JavaScript
    [number] (the primitive floats of the kernel), for what a snapshot
    does to a balance that JSON does not write as it is.  The versions
    stay in [Z]. *)

Module Doubles.

Import PrimFloat.

Module Types.

(** What a field assigned from a [number] holds: the number, or [null]
    once the object has been through JSON with a number that is not
    finite. *)
Inductive Value :=
| Num (f : float)
| Null.

(** [Number(v)] *)
Definition Number (v : Value) : float :=
  match v with
  | Num f => f
  | Null => 0%float
  end.

Inductive EventData :=
| AccountCreatedData (ownerName : string) (initialBalance : float) (currency : string)
| MoneyDepositedData (amount : float) (description : option string)
    (transactionId : string)
| MoneyWithdrawnData (amount : float) (description : option string)
    (transactionId : string)
| AccountClosedData (reason : option string).

Record DomainEvent := {
  eventId : string;
  aggregateId : string;
  aggregateType : string;
  eventData : EventData;
  eventNumber : Z;
  timestamp : Z;
  version : Z
}.

Record BankAccountState := {
  accountId : string;
  ownerName : string;
  balance : Value;
  currency : string;
  status : Status;
  processedTransactionIds : gset string
}.

End Types.

Import Types.

Module BankAccount.

Record t := mk {
  state : BankAccountState;
  changes : list DomainEvent;
  version : Z
}.

(** The value of [processedTransactionIds] in a snapshot's [data]:
    an array, a [Set], or anything else. *)
Inductive JsIds :=
| IdsArray (ids : list string)
| IdsSet (ids : gset string)
| IdsOther.

Record SnapshotData := {
  s_accountId : string;
  s_ownerName : string;
  s_balance : Value;
  s_currency : string;
  s_status : Status;
  s_processedTransactionIds : JsIds
}.

Record Snapshot := {
  data : SnapshotData;
  lastEventNumber : Z
}.

(** [constructor()] *)
Definition new : t :=
  {| state := {| accountId := EmptyString; ownerName := EmptyString;
                 balance := Num 0%float;
                 currency := EmptyString;
                 status := CLOSED; processedTransactionIds := ∅ |};
     changes := [];
     version := 0 |}.

(** [apply(event)]: [balance += Number(amount)] converts a [null] balance
    to 0 before it adds. *)
Definition apply (event : DomainEvent) (this : t) : t :=
  let st := state this in
  let st' :=
    match eventData event with
    | AccountCreatedData owner initial cur =>
        {| accountId := aggregateId event; ownerName := owner;
           balance := Num initial;
           currency := cur; status := OPEN;
           processedTransactionIds := processedTransactionIds st |}
    | MoneyDepositedData amount _ transactionId =>
        {| accountId := accountId st; ownerName := ownerName st;
           balance := Num (Number (balance st) + amount)%float;
           currency := currency st; status := status st;
           processedTransactionIds := {[ transactionId ]} ∪ processedTransactionIds st |}
    | MoneyWithdrawnData amount _ transactionId =>
        {| accountId := accountId st; ownerName := ownerName st;
           balance := Num (Number (balance st) - amount)%float;
           currency := currency st; status := status st;
           processedTransactionIds := {[ transactionId ]} ∪ processedTransactionIds st |}
    | AccountClosedData _ =>
        {| accountId := accountId st; ownerName := ownerName st;
           balance := balance st;
           currency := currency st; status := CLOSED;
           processedTransactionIds := processedTransactionIds st |}
    end in
  {| state := st'; changes := changes this; version := Types.version event |}.

(** The restored [processedTransactionIds] of [hydrate]. *)
Definition restore_ids (ids : JsIds) : gset string :=
  match ids with
  | IdsArray l => list_to_set l
  | IdsSet s => s
  | IdsOther => ∅
  end.

(** [static hydrate(events, snapshot?)] *)
Definition hydrate (events : list DomainEvent) (snapshot : option Snapshot) : t :=
  let account := new in
  let account :=
    match snapshot with
    | Some snap =>
        let d := data snap in
        {| state := {| accountId := s_accountId d; ownerName := s_ownerName d;
                       balance := s_balance d; currency := s_currency d;
                       status := s_status d;
                       processedTransactionIds :=
                         restore_ids (s_processedTransactionIds d) |};
           changes := changes account;
           version := lastEventNumber snap |}
    | None => account
    end in
  fold_left (fun acc event => apply event acc) events account.

End BankAccount.

(** [JSON.parse(JSON.stringify(v))] of a number field: NaN and the
    infinities are written as [null], negative zero as [0], every other
    number in digits that read back as the same number. *)
Definition json_number (v : Value) : Value :=
  match v with
  | Num f =>
      match classify f with
      | FloatClass.NaN | FloatClass.PInf | FloatClass.NInf => Null
      | FloatClass.NZero => Num 0%float
      | _ => Num f
      end
  | Null => Null
  end.

(** The snapshot data of the handlers,
    [{ ...account.state, processedTransactionIds: Array.from(...) }]. *)
Definition snapshotData (account : BankAccount.t) : BankAccount.SnapshotData :=
  let st := BankAccount.state account in
  {| BankAccount.s_accountId := accountId st;
     BankAccount.s_ownerName := ownerName st;
     BankAccount.s_balance := balance st;
     BankAccount.s_currency := currency st;
     BankAccount.s_status := status st;
     BankAccount.s_processedTransactionIds :=
       BankAccount.IdsArray (elements (processedTransactionIds st)) |}.

(** The snapshot data after [JSON.stringify], which [saveSnapshot]
    applies, and the parse of what the JSONB column holds: strings as
    they are, the balance as [json_number] has it, an array of ids as it
    is, a [Set] as an object without entries. *)
Definition jsonb (d : BankAccount.SnapshotData) : BankAccount.SnapshotData :=
  {| BankAccount.s_accountId := BankAccount.s_accountId d;
     BankAccount.s_ownerName := BankAccount.s_ownerName d;
     BankAccount.s_balance := json_number (BankAccount.s_balance d);
     BankAccount.s_currency := BankAccount.s_currency d;
     BankAccount.s_status := BankAccount.s_status d;
     BankAccount.s_processedTransactionIds :=
       match BankAccount.s_processedTransactionIds d with
       | BankAccount.IdsArray l => BankAccount.IdsArray l
       | BankAccount.IdsSet _ => BankAccount.IdsOther
       | BankAccount.IdsOther => BankAccount.IdsOther
       end |}.

(** The serialized state of an aggregate, tagged with its version. *)
Definition snapshot_of (a : BankAccount.t) : BankAccount.Snapshot :=
  {| BankAccount.data := jsonb (snapshotData a);
     BankAccount.lastEventNumber := BankAccount.version a |}.

(** Replaying [events] onto an aggregate, as the loop of [hydrate] does. *)
Definition replay (events : list DomainEvent) (a : BankAccount.t) : BankAccount.t :=
  fold_left (fun acc event => BankAccount.apply event acc) events a.

(** A run of events numbered [k+1], [k+2], ... without gaps. *)
Fixpoint gapless (k : Z) (events : list DomainEvent) : Prop :=
  match events with
  | [] => True
  | e :: rest => Types.version e = k + 1 /\ gapless (k + 1) rest
  end.

End Doubles.

(** * Properties *)

Section Aggregate.

Implicit Types (a : BankAccount.t) (e : DomainEvent).

Lemma apply_version e a :
  BankAccount.version (BankAccount.apply e a) = Types.version e.
Proof. reflexivity. Qed.

Lemma apply_changes e a :
  BankAccount.changes (BankAccount.apply e a) = BankAccount.changes a.
Proof. reflexivity. Qed.

Lemma replay_app l1 l2 a : replay (l1 ++ l2) a = replay l2 (replay l1 a).
Proof. unfold replay. apply fold_left_app. Qed.

Lemma replay_changes l a :
  BankAccount.changes (replay l a) = BankAccount.changes a.
Proof.
  revert a. induction l as [|e l IH]; intros a; [reflexivity|].
  cbn. change (fold_left _ l ?x) with (replay l x). now rewrite IH.
Qed.

Lemma replay_version_gapless l a :
  gapless (BankAccount.version a) l ->
  BankAccount.version (replay l a) = BankAccount.version a + Z.of_nat (length l).
Proof.
  revert a. induction l as [|e l IH]; intros a H; cbn.
  - lia.
  - destruct H as [He Hl].
    change (fold_left _ l ?x) with (replay l x).
    rewrite IH; rewrite apply_version, He; [lia|assumption].
Qed.

Lemma gapless_app k l1 l2 :
  gapless k (l1 ++ l2) <-> gapless k l1 /\ gapless (k + Z.of_nat (length l1)) l2.
Proof.
  revert k. induction l1 as [|e l1 IH]; intros k; cbn [app gapless length].
  - rewrite Z.add_0_r. tauto.
  - rewrite IH. replace (k + 1 + Z.of_nat (length l1)) with (k + Z.of_nat (S (length l1))) by lia.
    tauto.
Qed.

(** What an accepted command does: nothing (an idempotent retry), or one
    new event, numbered after the current version, applied and recorded. *)
Lemma execute_Return c uuid now a a' :
  execute c uuid now a = (Return, a') ->
  a' = a
  \/ exists e,
      a' = BankAccount.push e (BankAccount.apply e a)
      /\ Types.version e = BankAccount.version a + 1
      /\ eventNumber e = BankAccount.version a + 1
      /\ aggregateId e = accountId (BankAccount.state a)
      /\ eventId e = uuid /\ Types.timestamp e = now
      /\ eventType e <> AccountCreated.
Proof.
  destruct c; cbn; unfold BankAccount.deposit, BankAccount.withdraw, BankAccount.close;
    intros H; repeat case_match; simplify_eq; auto;
    right; eexists; (split; [reflexivity|]); cbn; repeat split; discriminate.
Qed.

(** A closed account holds nothing: it was closed at balance zero and
    accepts no command afterwards. *)
Lemma reachable_closed_zero initial a :
  reachable initial a ->
  status (BankAccount.state a) = CLOSED -> balance (BankAccount.state a) = 0.
Proof.
  induction 1 as [id owner cur uuid now | a c uuid now a' Ha IH Hc | a Ha IH]; cbn.
  - discriminate.
  - destruct c; cbn in Hc;
      unfold BankAccount.deposit, BankAccount.withdraw, BankAccount.close in Hc;
      repeat case_match; simplify_eq; cbn; auto; try congruence.
    intros _. lia.
  - exact IH.
Qed.


Lemma close_nonzero initial a reason uuid now :
  reachable initial a ->
  balance (BankAccount.state a) <> 0 ->
  BankAccount.close reason uuid now a = (Throw ErrNonZeroBalance, a).
Proof.
  intros Hr Hb. pose proof (reachable_closed_zero _ _ Hr) as Hz.
  unfold BankAccount.close, ErrNonZeroBalance.
  destruct (decide _) as [Hc|Hc]; [now apply Hz in Hc|].
  destruct (Z.eqb_spec (balance (BankAccount.state a)) 0); [contradiction|reflexivity].
Qed.

Lemma close_closed a reason uuid now :
  status (BankAccount.state a) = CLOSED ->
  BankAccount.close reason uuid now a = (Throw ErrAlreadyClosed, a).
Proof.
  intros Hc. unfold BankAccount.close. destruct (decide _); [reflexivity|contradiction].
Qed.

Lemma close_Throw a reason uuid now ex a' :
  BankAccount.close reason uuid now a = (Throw ex, a') ->
  a' = a /\ (ex = ErrNonZeroBalance \/ ex = ErrAlreadyClosed).
Proof.
  unfold BankAccount.close, ErrNonZeroBalance, ErrAlreadyClosed.
  repeat case_match; intros; simplify_eq; auto.
Qed.

Lemma close_Return a reason uuid now a' :
  BankAccount.close reason uuid now a = (Return, a') ->
  status (BankAccount.state a) = OPEN /\ balance (BankAccount.state a) = 0
  /\ status (BankAccount.state a') = CLOSED
  /\ exists e, eventData e = AccountClosedData reason
               /\ BankAccount.changes a' = BankAccount.changes a ++ [e].
Proof.
  unfold BankAccount.close. repeat case_match; intros; simplify_eq.
  split; [destruct (status _); congruence|].
  split; [destruct (Z.eqb_spec (balance (BankAccount.state a)) 0);
          [assumption|discriminate]|].
  split; [reflexivity|]. eexists. split; [|reflexivity]. reflexivity.
Qed.

Lemma close_open_zero a reason uuid now :
  status (BankAccount.state a) = OPEN ->
  balance (BankAccount.state a) = 0 ->
  fst (BankAccount.close reason uuid now a) = Return.
Proof.
  intros Ho Hb. unfold BankAccount.close. rewrite Hb.
  destruct (decide _); [congruence|reflexivity].
Qed.

Lemma replay_step_version a events l1 e l2 :
  gapless (BankAccount.version a) events ->
  events = l1 ++ e :: l2 ->
  BankAccount.version (replay (l1 ++ [e]) a) = BankAccount.version (replay l1 a) + 1.
Proof.
  intros Hg ->. apply gapless_app in Hg as [H1 H2].
  rewrite !replay_version_gapless; [|assumption|].
  - rewrite length_app. cbn. lia.
  - apply gapless_app. split; [assumption|]. cbn in *. tauto.
Qed.

Lemma execute_version c uuid now a a' :
  execute c uuid now a = (Return, a') ->
  a' = a \/ BankAccount.version a' = BankAccount.version a + 1.
Proof.
  intros Hc.
  destruct (execute_Return _ _ _ _ _ Hc) as [->|(e & -> & Hv & _)]; [now left|].
  right. cbn. exact Hv.
Qed.

Lemma duplicate_noop a amount description transactionId uuid now :
  status (BankAccount.state a) = OPEN ->
  0 < amount ->
  transactionId ∈ processedTransactionIds (BankAccount.state a) ->
  BankAccount.deposit amount description transactionId uuid now a = (Return, a)
  /\ (amount <= balance (BankAccount.state a) ->
      BankAccount.withdraw amount description transactionId uuid now a = (Return, a)).
Proof.
  intros Ho Ha Ht. unfold BankAccount.deposit, BankAccount.withdraw.
  destruct (decide (status _ = CLOSED)); [congruence|].
  destruct (Z.leb_spec amount 0); [lia|].
  destruct (decide (transactionId ∈ _)); [|contradiction].
  split; [reflexivity|]. intros Hb.
  destruct (Z.ltb_spec (balance (BankAccount.state a)) amount); [lia|reflexivity].
Qed.


End Aggregate.

(** ** The projector, row by row *)

Section Projection.

Implicit Types (e : DomainEvent) (db : Db).

Lemma Db_eq db1 db2 :
  events db1 = events db2 ->
  snapshots db1 = snapshots db2 ->
  account_summaries db1 = account_summaries db2 ->
  transaction_history db1 = transaction_history db2 ->
  db1 = db2.
Proof. destruct db1, db2; cbn; congruence. Qed.

Lemma insert_transaction_summaries t r db :
  account_summaries (Projector.insert_transaction t r db) = account_summaries db.
Proof. unfold Projector.insert_transaction. now destruct (_ !! t). Qed.

Lemma insert_transaction_events t r db :
  events (Projector.insert_transaction t r db) = events db.
Proof. unfold Projector.insert_transaction. now destruct (_ !! t). Qed.

Lemma insert_transaction_snapshots t r db :
  snapshots (Projector.insert_transaction t r db) = snapshots db.
Proof. unfold Projector.insert_transaction. now destruct (_ !! t). Qed.

Lemma insert_transaction_lookup t r db t' :
  transaction_history (Projector.insert_transaction t r db) !! t'
  = match transaction_history db !! t' with
    | Some r' => Some r'
    | None => if decide (t = t') then Some r else None
    end.
Proof.
  unfold Projector.insert_transaction.
  destruct (transaction_history db !! t) as [r0|] eqn:Ht; cbn.
  - destruct (transaction_history db !! t') eqn:Ht'; [reflexivity|].
    case_decide; congruence.
  - rewrite lookup_insert. case_decide; subst.
    + now rewrite Ht.
    + now destruct (transaction_history db !! t').
Qed.

Lemma project_events e db : events (Projector.project e db) = events db.
Proof.
  unfold Projector.project, Projector.projectAccountCreated,
    Projector.projectMoneyDeposited, Projector.projectMoneyWithdrawn,
    Projector.projectAccountClosed.
  repeat case_match; rewrite ?insert_transaction_events; reflexivity.
Qed.

Lemma project_snapshots e db : snapshots (Projector.project e db) = snapshots db.
Proof.
  unfold Projector.project, Projector.projectAccountCreated,
    Projector.projectMoneyDeposited, Projector.projectMoneyWithdrawn,
    Projector.projectAccountClosed.
  repeat case_match; rewrite ?insert_transaction_snapshots; reflexivity.
Qed.

Lemma project_summaries e db id :
  account_summaries (Projector.project e db) !! id
  = if decide (id = aggregateId e)
    then summary_step e (account_summaries db !! id)
    else account_summaries db !! id.
Proof.
  unfold Projector.project, summary_step, skipped, stored_version.
  case_decide as Hid.
  - subst id.
    destruct (account_summaries db !! aggregateId e) as [r|] eqn:Hr;
      (destruct (_ && _); [assumption|]);
      unfold Projector.projectAccountCreated, Projector.projectMoneyDeposited,
        Projector.projectMoneyWithdrawn, Projector.projectAccountClosed;
      destruct (eventData e); rewrite ?insert_transaction_summaries, ?Hr; cbn;
      rewrite ?lookup_alter_eq, ?lookup_insert_eq, ?Hr; reflexivity.
  - destruct (_ && _); [reflexivity|].
    unfold Projector.projectAccountCreated, Projector.projectMoneyDeposited,
      Projector.projectMoneyWithdrawn, Projector.projectAccountClosed.
    repeat case_match; rewrite ?insert_transaction_summaries; cbn;
      rewrite ?lookup_alter_ne, ?lookup_insert_ne by congruence; reflexivity.
Qed.

Lemma project_transactions e db t :
  transaction_history (Projector.project e db) !! t
  = transaction_step t e (account_summaries db !! aggregateId e)
      (transaction_history db !! t).
Proof.
  unfold Projector.project, transaction_step, skipped, stored_version,
    transaction_id, transaction_row.
  destruct (_ && _).
  - now destruct (transaction_history db !! t).
  - unfold Projector.projectAccountCreated, Projector.projectMoneyDeposited,
      Projector.projectMoneyWithdrawn, Projector.projectAccountClosed.
    destruct (eventData e); rewrite ?insert_transaction_lookup; cbn.
    + destruct (account_summaries db !! aggregateId e); cbn;
        destruct (transaction_history db !! t); try reflexivity; now case_decide.
    + destruct (transaction_history db !! t); [reflexivity|].
      repeat case_decide; congruence.
    + destruct (transaction_history db !! t); [reflexivity|].
      repeat case_decide; congruence.
    + destruct (transaction_history db !! t); [reflexivity|]. now case_decide.
Qed.

Lemma summary_step_skipped e row :
  skipped e row = true -> summary_step e row = row.
Proof. intros H. unfold summary_step. now rewrite H. Qed.

Lemma skipped_after_step e row :
  eventType e <> AccountCreated ->
  skipped e row = false ->
  is_Some row ->
  skipped e (summary_step e row) = true.
Proof.
  intros Hc Hs [r ->]. unfold summary_step. rewrite Hs.
  unfold skipped, stored_version, eventType in *.
  destruct (eventData e); try congruence; cbn;
    rewrite Z.leb_refl; cbn; rewrite bool_decide_eq_false_2 by discriminate; reflexivity.
Qed.

Lemma summary_step_idem e row :
  summary_step e (summary_step e row) = summary_step e row.
Proof.
  destruct (skipped e row) eqn:Hs.
  - unfold summary_step. now rewrite !Hs.
  - destruct (decide (eventType e = AccountCreated)) as [Hc|Hc].
    + unfold summary_step, skipped in *.
      rewrite (bool_decide_eq_true_2 _ Hc), !andb_false_r.
      unfold eventType in Hc. destruct (eventData e); try discriminate.
      now destruct row.
    + destruct row as [r|].
      * apply summary_step_skipped, skipped_after_step; eauto.
      * unfold summary_step at 2. rewrite Hs.
        unfold eventType in Hc.
        destruct (eventData e); try congruence; cbn; unfold summary_step; now rewrite Hs.
Qed.

End Projection.

Section ProjectionIdempotent.

Implicit Types (e : DomainEvent) (db : Db).

Lemma transaction_row_is_Some e t :
  transaction_id e = Some t -> is_Some (transaction_row e).
Proof.
  unfold transaction_id, transaction_row. destruct (eventData e); intros; simplify_eq; eauto.
Qed.

Lemma transaction_step_idem t e summary row :
  transaction_step t e (summary_step e summary) (transaction_step t e summary row)
  = transaction_step t e summary row.
Proof.
  unfold transaction_step. destruct row as [r|]; [reflexivity|].
  destruct (skipped e summary) eqn:Hs.
  - rewrite (summary_step_skipped _ _ Hs), Hs. reflexivity.
  - case_decide as Ht.
    + destruct (transaction_row_is_Some _ _ Ht) as [r ->]. reflexivity.
    + now destruct (skipped e (summary_step e summary)).
Qed.

Lemma project_idem e db :
  Projector.project e (Projector.project e db) = Projector.project e db.
Proof.
  apply Db_eq.
  - now rewrite !project_events.
  - now rewrite !project_snapshots.
  - apply map_eq. intros id. rewrite !project_summaries.
    case_decide; [apply summary_step_idem|reflexivity].
  - apply map_eq. intros t. rewrite !project_transactions, project_summaries.
    rewrite decide_True by reflexivity. apply transaction_step_idem.
Qed.

Lemma project_skipped e db :
  skipped e (account_summaries db !! aggregateId e) = true ->
  Projector.project e db = db.
Proof.
  intros Hs. unfold Projector.project.
  unfold skipped, stored_version in Hs. rewrite Hs. reflexivity.
Qed.

End ProjectionIdempotent.

(** C4.  Projection is idempotent: projecting an event a second time
    leaves the database, so both read models, unchanged.  An event other
    than AccountCreated whose version is at most the version stored in
    the account's summary row is skipped; an AccountCreated event for an
    account that has a summary row neither inserts nor overwrites; and no
    projection replaces an existing transaction-history row, so a repeated
    deposit or withdrawal event adds no second row for its transaction
    id. *)
Theorem project_idempotent (e : DomainEvent) (db : Db) :
  Projector.project e (Projector.project e db) = Projector.project e db
  /\ (eventType e <> AccountCreated ->
      Types.version e <= stored_version (account_summaries db !! aggregateId e) ->
      Projector.project e db = db)
  /\ (eventType e = AccountCreated ->
      is_Some (account_summaries db !! aggregateId e) ->
      Projector.project e db = db)
  /\ (forall t r, transaction_history db !! t = Some r ->
      transaction_history (Projector.project e db) !! t = Some r)
  /\ size (transaction_history (Projector.project e (Projector.project e db)))
     = size (transaction_history (Projector.project e db)).
Proof.
  split; [apply project_idem|].
  split; [|split; [|split]].
  - intros Hc Hv. apply project_skipped. unfold skipped.
    rewrite (bool_decide_eq_false_2 _ Hc).
    apply andb_true_iff. split; [now apply Z.leb_le|reflexivity].
  - intros Hc [r Hr]. unfold Projector.project. rewrite Hr.
    rewrite (bool_decide_eq_true_2 _ Hc), andb_false_r.
    unfold eventType in Hc. destruct (eventData e); try discriminate. reflexivity.
  - intros t r Ht. rewrite project_transactions. unfold transaction_step.
    now rewrite Ht.
  - now rewrite project_idem.
Qed.

Lemma project_idempotent_witness :
  let e := {| eventId := "u2"; aggregateId := "A"; aggregateType := "BankAccount";
              eventData := MoneyDepositedData 50 None "t1";
              eventNumber := 2; timestamp := 20; Types.version := 2 |} in
  let db := snd (Routes.run
                   [(Routes.PostAccounts "A" "ann" 100 "USD",
                     {| Routes.uuid := "u1"; Routes.now := 10 |});
                    (Routes.PostDeposit "A" 50 None "t1",
                     {| Routes.uuid := "u2"; Routes.now := 20 |})] Schema.empty) in
  Projector.project e db = db.
Proof.
  cbn zeta.
  refine (proj1 (proj2 (project_idempotent _ _)) _ _); [discriminate|].
  vm_compute. discriminate.
Defined.

(** ** The event log *)

Section EventLog.

Implicit Types (e : DomainEvent) (db : Db).

Lemma filter_length_pos {A} (P : A -> Prop) `{!forall x, Decision (P x)} (l : list A) :
  (0 <? Z.of_nat (length (filter P l))) = true <-> Exists P l.
Proof.
  rewrite Z.ltb_lt, Exists_exists.
  split.
  - destruct (filter P l) as [|x l'] eqn:Hf; cbn; [lia|]. intros _.
    exists x. assert (Hx : x ∈ filter P l) by (rewrite Hf; left).
    apply list_elem_of_filter in Hx. tauto.
  - intros (x & Hx & HP).
    assert (Hin : x ∈ filter P l) by (apply list_elem_of_filter; tauto).
    destruct (filter P l); [inversion Hin|cbn; lia].
Qed.

Lemma save_conflict e db :
  conflicts e db ->
  EventStore.save e db
  = (Throw (ConcurrencyConflict (eventNumber e) (aggregateId e)), db).
Proof.
  intros Hc. unfold EventStore.save.
  unfold conflicts in Hc. apply (proj2 (filter_length_pos _ _)) in Hc. now rewrite Hc.
Qed.

Lemma save_no_conflict e db :
  ~ conflicts e db ->
  EventStore.save e db
  = if bool_decide (Exists (fun r => eventId r = eventId e) (events db))
    then (Throw (UniqueViolation "events_pkey"), db)
    else (Return, append_event e db).
Proof.
  intros Hc. unfold EventStore.save.
  destruct (0 <? _) eqn:Hf; [apply (proj1 (filter_length_pos _ _)) in Hf; now destruct Hc|].
  unfold insert_event. case_bool_decide; [reflexivity|].
  rewrite bool_decide_eq_false_2 by exact Hc. reflexivity.
Qed.

End EventLog.




(** ** Snapshots and replay *)

Section Snapshots.

Implicit Types (a : BankAccount.t) (e : DomainEvent) (h : list DomainEvent).

Lemma hydrate_replay l snapshot :
  BankAccount.hydrate l snapshot = replay l (BankAccount.hydrate [] snapshot).
Proof. reflexivity. Qed.

Lemma hydrate_None l : BankAccount.hydrate l None = replay l BankAccount.new.
Proof. reflexivity. Qed.

Lemma hydrate_changes l : BankAccount.changes (BankAccount.hydrate l None) = [].
Proof. rewrite hydrate_None, replay_changes. reflexivity. Qed.

Lemma hydrate_version h :
  gapless 0 h ->
  BankAccount.version (BankAccount.hydrate h None) = Z.of_nat (length h).
Proof.
  intros Hg. rewrite hydrate_None, replay_version_gapless by exact Hg. cbn. lia.
Qed.

(** Serializing the state with the id set as a list and restoring it in
    [hydrate] gives the aggregate back, with no uncommitted changes. *)
Lemma hydrate_snapshot_of a :
  BankAccount.hydrate [] (Some (snapshot_of a)) = BankAccount.markChangesAsCommitted a.
Proof.
  unfold BankAccount.hydrate, snapshot_of, Routes.snapshotData,
    BankAccount.markChangesAsCommitted. cbn.
  rewrite list_to_set_elements_L. destruct a as [[] ? ?]. reflexivity.
Qed.

Lemma gapless_take k j h : gapless j h -> gapless j (take k h).
Proof.
  intros Hg. rewrite <- (take_drop k h) in Hg. now apply gapless_app in Hg.
Qed.

Lemma hydrate_snapshot_tail h (k : nat) :
  gapless 0 h ->
  (k <= length h)%nat ->
  BankAccount.hydrate (drop k h)
    (Some {| BankAccount.data := Routes.snapshotData (BankAccount.hydrate (take k h) None);
             BankAccount.lastEventNumber := Z.of_nat k |})
  = BankAccount.hydrate h None.
Proof.
  intros Hg Hk.
  pose proof (hydrate_version (take k h) (gapless_take k 0 h Hg)) as Hv.
  rewrite length_take, Nat.min_l in Hv by exact Hk.
  rewrite <- Hv. change {| BankAccount.data := _; BankAccount.lastEventNumber := _ |}
    with (snapshot_of (BankAccount.hydrate (take k h) None)).
  rewrite hydrate_replay, hydrate_snapshot_of.
  rewrite <- (take_drop k h) at 3. rewrite (hydrate_None (_ ++ _)), replay_app.
  f_equal. rewrite hydrate_None.
  pose proof (replay_changes (take k h) BankAccount.new) as Hc.
  destruct (replay (take k h) BankAccount.new) as [st ch v]. cbn in Hc. subst ch.
  reflexivity.
Qed.

Lemma gapless_lower j h : gapless j h -> Forall (fun e => j < Types.version e) h.
Proof.
  revert j. induction h as [|e h IH]; intros j Hg; [constructor|].
  destruct Hg as [He Hh]. constructor; [lia|].
  eapply Forall_impl; [apply IH, Hh|]. cbn. intros; lia.
Qed.

Lemma filter_all {A} (P : A -> Prop) `{!forall x, Decision (P x)} (l : list A) :
  Forall P l -> filter P l = l.
Proof.
  induction 1 as [|x l Hx Hl IH]; [reflexivity|].
  rewrite filter_cons_True by exact Hx. now rewrite IH.
Qed.

Lemma filter_version_gapless j (k : nat) h :
  gapless j h ->
  filter (fun e => j + Z.of_nat k < Types.version e) h = drop k h.
Proof.
  revert j k. induction h as [|e h IH]; intros j k Hg; [now destruct k|].
  destruct k as [|k].
  - rewrite drop_0. apply filter_all.
    eapply Forall_impl; [apply (gapless_lower _ _ Hg)|]. cbn. intros; lia.
  - destruct Hg as [He Hh]. rewrite filter_cons_False by lia. cbn [drop].
    rewrite <- (IH (j + 1) k Hh). apply list_filter_iff. intros; lia.
Qed.

Lemma gapless_inj j h x y :
  gapless j h -> x ∈ h -> y ∈ h -> Types.version x = Types.version y -> x = y.
Proof.
  revert j. induction h as [|e h IH]; intros j Hg Hx Hy Hv; [inversion Hx|].
  destruct Hg as [He Hh]. pose proof (gapless_lower _ _ Hh) as Hl.
  rewrite Forall_forall in Hl.
  apply elem_of_cons in Hx as [->|Hx]; apply elem_of_cons in Hy as [->|Hy].
  - reflexivity.
  - apply Hl in Hy. lia.
  - apply Hl in Hx. lia.
  - eauto.
Qed.

Lemma gapless_sorted j h : gapless j h -> StronglySorted by_version h.
Proof.
  revert j. induction h as [|e h IH]; intros j Hg; [constructor|].
  destruct Hg as [He Hh]. constructor; [eauto|].
  eapply Forall_impl; [apply (gapless_lower _ _ Hh)|].
  unfold by_version. cbn. intros; lia.
Qed.

Lemma merge_sort_gapless j h : gapless j h -> merge_sort by_version h = h.
Proof.
  intros Hg. apply (StronglySorted_unique_strong by_version).
  - intros x1 x2 H1 H2 H12 H21. unfold by_version in *.
    rewrite merge_sort_Permutation in H1.
    apply (gapless_inj j h); [assumption..|lia].
  - apply StronglySorted_merge_sort; apply _.
  - eapply gapless_sorted, Hg.
  - apply merge_sort_Permutation.
Qed.

Lemma gapless_drop (k : nat) j h :
  gapless j h -> (k <= length h)%nat -> gapless (j + Z.of_nat k) (drop k h).
Proof.
  intros Hg Hk. rewrite <- (take_drop k h) in Hg. apply gapless_app in Hg as [_ Hg].
  rewrite length_take, Nat.min_l in Hg by exact Hk. exact Hg.
Qed.

(** On a gapless history, [getEvents] returns the events after the first
    [k], in order. *)
Lemma getEvents_history id (k : nat) db :
  gapless 0 (history id db) ->
  EventStore.getEvents id (Z.of_nat k) db = drop k (history id db).
Proof.
  intros Hg. unfold EventStore.getEvents.
  assert (Hf : filter (fun r => aggregateId r = id /\ Z.of_nat k < Types.version r) (events db)
               = drop k (history id db)).
  { rewrite <- (filter_version_gapless 0 k _ Hg). unfold history.
    rewrite list_filter_filter. apply list_filter_iff. intros x. cbn. tauto. }
  rewrite Hf.
  destruct (decide (k <= length (history id db))%nat) as [Hk|Hk].
  - eapply merge_sort_gapless, gapless_drop; eassumption.
  - rewrite drop_ge by lia. reflexivity.
Qed.

Lemma filter_number_version (k : Z) h :
  Forall (fun e => eventNumber e = Types.version e) h ->
  filter (fun e => k < eventNumber e) h = filter (fun e => k < Types.version e) h.
Proof.
  induction 1 as [|e h He Hh IH]; [reflexivity|].
  rewrite !filter_cons, He, IH. reflexivity.
Qed.

End Snapshots.

(** ** The write path keeps the tables consistent *)

Section WritePath.

Implicit Types (a : BankAccount.t) (e : DomainEvent) (h : list DomainEvent) (db : Db).

Lemma well_formed_gapless h : well_formed h -> gapless 0 h.
Proof. now intros [? _]. Qed.

(** Loading an aggregate, through its snapshot or not, replays its whole
    history. *)
Lemma load_consistent id db :
  account_consistent id db ->
  Routes.loadBankAccount id db = BankAccount.hydrate (history id db) None.
Proof.
  intros (Hwf & Hsnap & _). pose proof (well_formed_gapless _ Hwf) as Hg.
  unfold Routes.loadBankAccount, EventStore.getSnapshot.
  destruct (snapshots db !! id) as [row|].
  - destruct Hsnap as (k & Hk & Hn & Hd). cbn.
    rewrite Hn, (getEvents_history id k db Hg).
    destruct row as [d n]. cbn in *. subst d n.
    now apply hydrate_snapshot_tail.
  - cbn. change 0 with (Z.of_nat 0).
    rewrite (getEvents_history id 0 db Hg), drop_0. reflexivity.
Qed.

Lemma gapless_upper j h :
  gapless j h -> Forall (fun e => Types.version e <= j + Z.of_nat (length h)) h.
Proof.
  revert j. induction h as [|e h IH]; intros j Hg; [constructor|].
  destruct Hg as [He Hh]. constructor; [cbn [length]; lia|].
  eapply Forall_impl; [apply IH, Hh|]. cbn. intros; lia.
Qed.

Lemma gapless_snoc j h e :
  gapless j (h ++ [e]) <-> gapless j h /\ Types.version e = j + Z.of_nat (length h) + 1.
Proof. rewrite gapless_app. cbn. tauto. Qed.

Lemma hydrate_snoc h e :
  BankAccount.hydrate (h ++ [e]) None = BankAccount.apply e (BankAccount.hydrate h None).
Proof. rewrite !hydrate_None, replay_app. reflexivity. Qed.

Lemma history_append id e db :
  history id (append_event e db)
  = history id db ++ (if decide (aggregateId e = id) then [e] else []).
Proof.
  unfold history, append_event. cbn. rewrite filter_app. reflexivity.
Qed.

Lemma history_agg id db : Forall (fun e => aggregateId e = id) (history id db).
Proof.
  apply Forall_forall. intros e He. apply list_elem_of_filter in He. tauto.
Qed.

Lemma project_append e e' db :
  Projector.project e (append_event e' db) = append_event e' (Projector.project e db).
Proof.
  apply Db_eq; unfold append_event; cbn; rewrite ?project_events, ?project_snapshots;
    try reflexivity.
  - apply map_eq. intros id. rewrite !project_summaries. reflexivity.
  - apply map_eq. intros t. rewrite !project_transactions. reflexivity.
Qed.

Lemma commit_events b id a e db : events (commit b id a e db) = events db ++ [e].
Proof.
  unfold commit. destruct (_ && _); cbn; now rewrite project_events.
Qed.

Lemma commit_history b id a e db id' :
  history id' (commit b id a e db)
  = history id' db ++ (if decide (aggregateId e = id') then [e] else []).
Proof.
  rewrite <- history_append. unfold history. now rewrite commit_events.
Qed.

Lemma commit_summaries b id a e db :
  account_summaries (commit b id a e db) = account_summaries (Projector.project e db).
Proof.
  unfold commit. rewrite project_append. now destruct (_ && _).
Qed.

Lemma commit_transactions b id a e db :
  transaction_history (commit b id a e db) = transaction_history (Projector.project e db).
Proof.
  unfold commit. rewrite project_append. now destruct (_ && _).
Qed.

Lemma commit_snapshots b id a e db :
  snapshots (commit b id a e db)
  = if b && (Z.rem (eventNumber e) 50 =? 0)
    then <[ id := {| SnapshotRow.snapshot_data := Routes.snapshotData a;
                     SnapshotRow.last_event_number := eventNumber e |} ]> (snapshots db)
    else snapshots db.
Proof.
  unfold commit. destruct (_ && _); cbn; now rewrite project_snapshots.
Qed.

Lemma summary_step_apply e a :
  eventType e <> AccountCreated ->
  BankAccount.version a < Types.version e ->
  summary_step e (Some (summary_of a)) = Some (summary_of (BankAccount.apply e a)).
Proof.
  intros Hc Hv. unfold summary_step, skipped, stored_version.
  cbn [summary_of SummaryRow.version].
  destruct (Z.leb_spec (Types.version e) (BankAccount.version a)); [lia|]. cbn [andb].
  unfold eventType in Hc. unfold summary_of, BankAccount.apply.
  destruct (eventData e); try congruence; reflexivity.
Qed.

Lemma summary_step_created e :
  eventType e = AccountCreated ->
  summary_step e None = Some (summary_of (BankAccount.apply e BankAccount.new)).
Proof.
  intros Hc. unfold summary_step, skipped.
  rewrite (bool_decide_eq_true_2 _ Hc), andb_false_r.
  unfold eventType in Hc. unfold summary_of, BankAccount.apply.
  destruct (eventData e); try discriminate; reflexivity.
Qed.

Lemma snapshotData_state a a' :
  BankAccount.state a = BankAccount.state a' ->
  Routes.snapshotData a = Routes.snapshotData a'.
Proof. unfold Routes.snapshotData. now intros ->. Qed.

(** Committing the next event of an account keeps every account
    consistent. *)
Lemma commit_consistent b id a e db :
  consistent db ->
  aggregateId e = id ->
  well_formed (history id db ++ [e]) ->
  BankAccount.state a = BankAccount.state (BankAccount.hydrate (history id db ++ [e]) None) ->
  consistent (commit b id a e db).
Proof.
  intros Hdb <- Hwf Ha id'. specialize (Hdb id') as Hdb'.
  destruct Hdb' as (Hwf' & Hsnap' & Hsum').
  unfold account_consistent. rewrite commit_history, commit_snapshots, commit_summaries.
  rewrite project_summaries.
  destruct (decide (aggregateId e = id')) as [He|He].
  - subst id'. rewrite decide_True by reflexivity.
    split; [exact Hwf|].
    destruct Hwf as (Hg & Hn & Hshape).
    apply gapless_snoc in Hg as [Hg Hv].
    rewrite Forall_app, Forall_singleton in Hn. destruct Hn as [_ Hn].
    split.
    + destruct (b && _).
      * rewrite lookup_insert_eq. exists (S (length (history (aggregateId e) db))).
        rewrite length_app. cbn. split; [lia|]. split; [lia|].
        rewrite take_ge by (rewrite length_app; cbn; lia).
        now apply snapshotData_state.
      * destruct (snapshots db !! aggregateId e) as [row|]; [|exact I].
        destruct Hsnap' as (k & Hk & Hl & Hd). exists k.
        rewrite length_app. split; [lia|]. split; [exact Hl|].
        now rewrite take_app_le.
    + rewrite Hsum', hydrate_snoc.
      destruct (history (aggregateId e) db) as [|e0 h] eqn:Hh.
      * cbn in Hshape. destruct Hshape as [Hc _]. cbn.
        now apply summary_step_created.
      * cbn in Hshape. destruct Hshape as [_ Hc].
        rewrite Forall_app, Forall_singleton in Hc. destruct Hc as [_ Hc].
        rewrite summary_step_apply; [now destruct h|exact Hc|].
        rewrite hydrate_version by exact Hg. lia.
  - rewrite app_nil_r. rewrite decide_False by congruence.
    split; [exact Hwf'|]. split; [|exact Hsum'].
    destruct (b && _); [|exact Hsnap'].
    rewrite lookup_insert_ne by congruence. exact Hsnap'.
Qed.

Lemma next_event_no_conflict id db e :
  well_formed (history id db) ->
  aggregateId e = id ->
  eventNumber e = Z.of_nat (length (history id db)) + 1 ->
  ~ conflicts e db.
Proof.
  intros (Hg & Hn & _) Hid He Hc. unfold conflicts in Hc.
  apply Exists_exists in Hc as (r & Hr & Hagg & Hnum).
  assert (Hin : r ∈ history id db).
  { apply list_elem_of_filter. split; [congruence|exact Hr]. }
  pose proof (gapless_upper _ _ Hg) as Hu.
  rewrite Forall_forall in Hn, Hu.
  specialize (Hn _ Hin). specialize (Hu _ Hin). cbn in Hu. lia.
Qed.

Lemma replay_accountId l a :
  Forall (fun e => eventType e <> AccountCreated) l ->
  accountId (BankAccount.state (replay l a)) = accountId (BankAccount.state a).
Proof.
  revert a. induction l as [|e l IH]; intros a Hl; [reflexivity|].
  apply Forall_cons in Hl as [He Hl]. cbn.
  change (fold_left _ l ?x) with (replay l x). rewrite (IH _ Hl).
  unfold eventType in He. unfold BankAccount.apply.
  destruct (eventData e); try congruence; reflexivity.
Qed.

Lemma hydrate_accountId id h :
  well_formed h -> h <> [] -> Forall (fun e => aggregateId e = id) h ->
  accountId (BankAccount.state (BankAccount.hydrate h None)) = id.
Proof.
  intros (_ & _ & Hshape) Hne Hid. destruct h as [|e0 h]; [congruence|].
  destruct Hshape as [Hc Hrest]. apply Forall_cons in Hid as [Hid _].
  rewrite hydrate_None. cbn. change (fold_left _ h ?x) with (replay h x).
  rewrite (replay_accountId _ _ Hrest).
  unfold eventType in Hc. unfold BankAccount.apply.
  destruct (eventData e0); try discriminate. exact Hid.
Qed.

Lemma save_changes_single id a e db :
  ~ conflicts e db ->
  Routes.save_changes id a [e] db
  = if bool_decide (Exists (fun r => eventId r = eventId e) (events db))
    then (Throw (UniqueViolation "events_pkey"), db)
    else (Return, commit true id a e db).
Proof.
  intros Hc. cbn. rewrite (save_no_conflict _ _ Hc). case_bool_decide; reflexivity.
Qed.

Lemma save_created_single id a e db :
  ~ conflicts e db ->
  Routes.save_created [e] db
  = if bool_decide (Exists (fun r => eventId r = eventId e) (events db))
    then (Throw (UniqueViolation "events_pkey"), db)
    else (Return, commit false id a e db).
Proof.
  intros Hc. cbn. rewrite (save_no_conflict _ _ Hc). case_bool_decide; reflexivity.
Qed.

Lemma well_formed_snoc h e :
  well_formed h -> h <> [] ->
  Types.version e = Z.of_nat (length h) + 1 ->
  eventNumber e = Z.of_nat (length h) + 1 ->
  eventType e <> AccountCreated ->
  well_formed (h ++ [e]).
Proof.
  intros (Hg & Hn & Hshape) Hne Hv Hnum Hc. split; [|split].
  - apply gapless_snoc. split; [exact Hg|lia].
  - rewrite Forall_app, Forall_singleton. split; [exact Hn|congruence].
  - destruct h as [|e0 h]; [congruence|]. cbn. destruct Hshape as [H0 Hrest].
    split; [exact H0|]. rewrite Forall_app, Forall_singleton. tauto.
Qed.

(** The tail shared by the deposit, withdraw and close handlers. *)
Lemma command_outcome req c msg env db :
  consistent db ->
  command_of req = Some c ->
  let id := account_of req in
  let account := Routes.loadBankAccount id db in
  let result :=
    if BankAccount.getVersion account =? 0
    then (Routes.respond 404 (Routes.error "Account not found"), db)
    else
      match execute c (Routes.uuid env) (Routes.now env) account with
      | (Throw ex, _) =>
          (Routes.respond 409 (Routes.error (Routes.exception_message ex)), db)
      | (Return, account) =>
          match Routes.save_changes id account
                  (BankAccount.getUncommittedChanges account) db with
          | (Throw _, db) =>
              (Routes.respond 500 (Routes.error "Internal server error"), db)
          | (Return, db) => (Routes.respond 202 (Routes.message msg), db)
          end
      end in
  outcome req env db (fst result) (snd result).
Proof.
  intros Hdb Hc id account result. subst result account.
  pose proof (Hdb id) as Hid. rewrite (load_consistent _ _ Hid).
  destruct Hid as (Hwf & _ & _).
  unfold BankAccount.getVersion. rewrite (hydrate_version _ (well_formed_gapless _ Hwf)).
  destruct (history id db) as [|e0 h] eqn:Hh.
  { cbn. now apply outcome_rejected. }
  rewrite <- Hh in *.
  assert (Hne : history id db <> []) by (rewrite Hh; discriminate).
  destruct (Z.eqb_spec (Z.of_nat (length (history id db))) 0) as [H0|H0].
  { rewrite Hh in H0. cbn in H0. lia. }
  destruct (execute c _ _ _) as [[|ex] a'] eqn:Hex; [|now apply outcome_rejected].
  destruct (execute_Return _ _ _ _ _ Hex) as [->|(e & -> & Hv & Hnum & Hagg & _ & _ & Hty)].
  - unfold BankAccount.getUncommittedChanges. rewrite hydrate_changes. cbn.
    now apply (outcome_retried _ _ _ c).
  - unfold BankAccount.getUncommittedChanges.
    cbn [BankAccount.changes BankAccount.push BankAccount.apply].
    rewrite hydrate_changes. cbn [app].
    rewrite (hydrate_version _ (well_formed_gapless _ Hwf)) in Hv, Hnum.
    rewrite (hydrate_accountId id _ Hwf Hne (history_agg id db)) in Hagg.
    rewrite save_changes_single by (now apply (next_event_no_conflict id)).
    case_bool_decide; [now apply outcome_rejected|].
    now apply (outcome_executed _ _ _ c).
Qed.

(** Every handler either leaves the database as it was or commits one
    event, the next of the account's history. *)
Lemma handle_outcome req env db :
  consistent db ->
  outcome req env db (fst (Routes.handle req env db)) (snd (Routes.handle req env db)).
Proof.
  intros Hdb. destruct req as [id owner initial cur|id amount d t|id amount d t|id reason];
    cbn [Routes.handle].
  - unfold Routes.postAccounts.
    destruct (_ || _) eqn:Hval; [now apply outcome_rejected|].
    apply orb_false_iff in Hval as [Hval _]. apply orb_false_iff in Hval as [_ Hval].
    apply Z.ltb_ge in Hval.
    pose proof (Hdb id) as Hid. rewrite (load_consistent _ _ Hid).
    destruct Hid as (Hwf & _ & _).
    unfold BankAccount.getVersion. rewrite (hydrate_version _ (well_formed_gapless _ Hwf)).
    destruct (history id db) as [|e0 h] eqn:Hh; [|now apply outcome_rejected].
    cbn [length Z.of_nat Z.ltb Z.compare].
    unfold BankAccount.getUncommittedChanges.
    cbn [BankAccount.create BankAccount.changes BankAccount.push BankAccount.apply
         BankAccount.new app].
    rewrite (save_created_single id
               (BankAccount.create id owner initial cur (Routes.uuid env) (Routes.now env))).
    + case_bool_decide; [now apply outcome_rejected|].
      now apply (outcome_created _ _ _ id owner initial cur).
    + apply (next_event_no_conflict id);
        [rewrite Hh; exact Hwf | reflexivity | rewrite Hh; reflexivity].
  - unfold Routes.postDeposit.
    destruct (_ || _); [now apply outcome_rejected|].
    exact (command_outcome (Routes.PostDeposit id amount d t) (Deposit amount d t)
             _ env db Hdb eq_refl).
  - unfold Routes.postWithdraw.
    destruct (_ || _); [now apply outcome_rejected|].
    exact (command_outcome (Routes.PostWithdraw id amount d t) (Withdraw amount d t)
             _ env db Hdb eq_refl).
  - exact (command_outcome (Routes.PostClose id reason) (Close reason)
             _ env db Hdb eq_refl).
Qed.

Lemma push_apply_inj e e' a :
  BankAccount.push e (BankAccount.apply e a) = BankAccount.push e' (BankAccount.apply e' a) ->
  e = e'.
Proof.
  intros H. apply (f_equal BankAccount.changes) in H. cbn in H.
  apply app_inv_head in H. congruence.
Qed.

Lemma execute_event c uuid now a e :
  execute c uuid now a = (Return, BankAccount.push e (BankAccount.apply e a)) ->
  Types.version e = BankAccount.version a + 1
  /\ eventNumber e = BankAccount.version a + 1
  /\ aggregateId e = accountId (BankAccount.state a)
  /\ eventId e = uuid /\ Types.timestamp e = now
  /\ eventType e <> AccountCreated.
Proof.
  intros H. destruct (execute_Return _ _ _ _ _ H) as [Heq|(e' & Heq & Hrest)].
  - apply (f_equal (fun x => length (BankAccount.changes x))) in Heq.
    cbn in Heq. rewrite length_app in Heq. cbn in Heq. lia.
  - apply push_apply_inj in Heq. subst e'. exact Hrest.
Qed.

Lemma outcome_consistent req env db r db' :
  consistent db -> outcome req env db r db' -> consistent db'.
Proof.
  intros Hdb Ho. destruct Ho as [r Hr | c r a Hc Hne Hex Hr
                               | id owner initial cur e r a Hreq Hi Hh Hch Hr
                               | c e r a Hc Hne Hex Hr]; try assumption.
  - subst a. cbn in Hch. simplify_eq. apply commit_consistent; try assumption.
    + reflexivity.
    + rewrite Hh. cbn. unfold well_formed. cbn. repeat split; repeat constructor.
    + rewrite Hh. reflexivity.
  - destruct (Hdb (account_of req)) as (Hwf & _ & _).
    apply execute_event in Hex as (Hv & Hnum & Hagg & _ & _ & Hty). subst a.
    rewrite (hydrate_version _ (well_formed_gapless _ Hwf)) in Hv, Hnum.
    rewrite (hydrate_accountId _ _ Hwf Hne (history_agg _ db)) in Hagg.
    apply commit_consistent; try assumption.
    + now apply well_formed_snoc.
    + rewrite hydrate_snoc. reflexivity.
Qed.

Lemma run_cons req env rest db :
  Routes.run ((req, env) :: rest) db
  = (fst (Routes.handle req env db) :: fst (Routes.run rest (snd (Routes.handle req env db))),
     snd (Routes.run rest (snd (Routes.handle req env db)))).
Proof.
  cbn. destruct (Routes.handle req env db) as [r db1]. cbn.
  now destruct (Routes.run rest db1).
Qed.

Lemma handle_consistent req env db :
  consistent db -> consistent (snd (Routes.handle req env db)).
Proof. intros Hdb. eapply outcome_consistent, handle_outcome; exact Hdb. Qed.

Lemma run_consistent reqs db :
  consistent db -> consistent (snd (Routes.run reqs db)).
Proof.
  revert db. induction reqs as [|[req env] rest IH]; intros db Hdb; [exact Hdb|].
  rewrite run_cons. cbn. apply IH. now apply handle_consistent.
Qed.







Lemma consistent_empty : consistent Schema.empty.
Proof.
  intros id. unfold account_consistent, history, well_formed. cbn.
  rewrite !lookup_empty. repeat split; constructor.
Qed.

Lemma outcome_reachable req env db r db' :
  consistent db -> loaded_reachable db -> outcome req env db r db' -> loaded_reachable db'.
Proof.
  intros Hdb Hre Ho. destruct Ho as [r Hr | c r a Hc Hne Hex Hr
                                   | id0 owner initial cur e r a Hreq Hi Hh Hch Hr
                                   | c e r a Hc Hne Hex Hr]; try assumption.
  - subst a. cbn in Hch. simplify_eq. intros id. rewrite commit_history. cbn.
    case_decide as Hid.
    + subst id0. rewrite Hh. intros _. exists initial. split; [exact Hi|].
      apply (reachable_committed initial _
               (reachable_create initial id owner cur (Routes.uuid env) (Routes.now env))).
    + rewrite app_nil_r. apply Hre.
  - destruct (Hdb (account_of req)) as (Hwf & _ & _).
    pose proof (execute_event _ _ _ _ _ Hex) as (_ & _ & Hagg & _).
    subst a. rewrite (hydrate_accountId _ _ Hwf Hne (history_agg _ db)) in Hagg.
    intros id. rewrite commit_history. case_decide as Hid.
    + subst id. rewrite Hagg. intros _.
      destruct (Hre _ Hne) as (initial & Hi & Hreach). exists initial. split; [exact Hi|].
      rewrite hydrate_snoc.
      pose proof (reachable_committed _ _ (reachable_execute _ _ _ _ _ _ Hreach Hex)) as H.
      pose proof (hydrate_changes (history (account_of req) db)) as Hch.
      destruct (BankAccount.hydrate (history (account_of req) db) None) as [st ch v].
      cbn in Hch. subst ch. exact H.
    + rewrite app_nil_r. apply Hre.
Qed.

Lemma run_loaded_reachable reqs db :
  consistent db -> loaded_reachable db -> loaded_reachable (snd (Routes.run reqs db)).
Proof.
  revert db. induction reqs as [|[req env] rest IH]; intros db Hdb Hre; [exact Hre|].
  rewrite run_cons. cbn. apply IH; [now apply handle_consistent|].
  eapply outcome_reachable; [exact Hdb|exact Hre|]. now apply handle_outcome.
Qed.

Lemma loaded_reachable_empty : loaded_reachable Schema.empty.
Proof. intros id Hne. now destruct Hne. Qed.

(** What a handler loads after any run of requests: the fresh aggregate of
    an account without events, or a reachable aggregate. *)
Lemma run_load reqs id :
  let db := snd (Routes.run reqs Schema.empty) in
  Routes.loadBankAccount id db = BankAccount.hydrate (history id db) None
  /\ BankAccount.getVersion (Routes.loadBankAccount id db)
     = Z.of_nat (length (history id db))
  /\ (history id db <> [] ->
      exists initial, 0 <= initial /\ reachable initial (Routes.loadBankAccount id db)).
Proof.
  intros db.
  assert (Hdb : consistent db) by apply run_consistent, consistent_empty.
  pose proof (Hdb id) as Hid. rewrite (load_consistent _ _ Hid).
  destruct Hid as (Hwf & _ & _).
  split; [reflexivity|]. split.
  - apply hydrate_version, well_formed_gapless, Hwf.
  - apply (run_loaded_reachable reqs Schema.empty consistent_empty loaded_reachable_empty).
Qed.

End WritePath.

(** ** Commands through the handlers *)

Section Handlers.

Lemma postClose_rejected reqs id reason env :
  let db := snd (Routes.run reqs Schema.empty) in
  let a := Routes.loadBankAccount id db in
  history id db <> [] ->
  (balance (BankAccount.state a) <> 0 ->
   Routes.postClose id reason env db
   = (Routes.respond 409 (Routes.error "Cannot close account with non-zero balance"), db))
  /\ (status (BankAccount.state a) = CLOSED ->
      Routes.postClose id reason env db
      = (Routes.respond 409 (Routes.error "Account is already closed"), db)).
Proof.
  intros db a Hne. subst a. unfold Routes.postClose.
  destruct (run_load reqs id) as (_ & Hv & Hre). fold db in Hv, Hre.
  destruct (Hre Hne) as (initial & _ & Hreach).
  rewrite Hv.
  destruct (Z.eqb_spec (Z.of_nat (length (history id db))) 0) as [H0|_].
  { destruct (history id db); [congruence|cbn in H0; lia]. }
  split.
  - intros Hb. now rewrite (close_nonzero initial _ _ _ _ Hreach Hb).
  - intros Hc. now rewrite (close_closed _ _ _ _ Hc).
Qed.



Lemma post_duplicate reqs id amount description t env :
  let db := snd (Routes.run reqs Schema.empty) in
  let a := Routes.loadBankAccount id db in
  history id db <> [] ->
  t <> EmptyString ->
  status (BankAccount.state a) = OPEN ->
  0 < amount ->
  t ∈ processedTransactionIds (BankAccount.state a) ->
  Routes.postDeposit id amount description t env db
  = (Routes.respond 202 (Routes.message "Deposit accepted"), db)
  /\ (amount <= balance (BankAccount.state a) ->
      Routes.postWithdraw id amount description t env db
      = (Routes.respond 202 (Routes.message "Withdrawal accepted"), db)).
Proof.
  intros db a Hne Ht Ho Ha Hin. subst a.
  unfold Routes.postDeposit, Routes.postWithdraw.
  destruct (run_load reqs id) as (Hl & Hv & _). fold db in Hl, Hv.
  destruct (Z.leb_spec amount 0); [lia|].
  rewrite (bool_decide_eq_false_2 _ Ht). cbn [orb].
  rewrite Hv.
  destruct (Z.eqb_spec (Z.of_nat (length (history id db))) 0) as [H0|_].
  { destruct (history id db); [congruence|cbn in H0; lia]. }
  destruct (duplicate_noop _ amount description t (Routes.uuid env) (Routes.now env)
              Ho Ha Hin) as [Hd Hw].
  assert (Hch : BankAccount.getUncommittedChanges (Routes.loadBankAccount id db) = [])
    by (rewrite Hl; apply hydrate_changes).
  split.
  - rewrite Hd, Hch. reflexivity.
  - intros Hb. rewrite (Hw Hb), Hch. reflexivity.
Qed.

End Handlers.

(** *** Snapshots on doubles *)

Section OnDoubles.

Import PrimFloat.

Implicit Types (e : Doubles.Types.DomainEvent) (a : Doubles.BankAccount.t).

Lemma doubles_replay_app l1 l2 a :
  Doubles.replay (l1 ++ l2) a = Doubles.replay l2 (Doubles.replay l1 a).
Proof. unfold Doubles.replay. apply fold_left_app. Qed.

Lemma doubles_replay_changes l a :
  Doubles.BankAccount.changes (Doubles.replay l a) = Doubles.BankAccount.changes a.
Proof.
  revert a. induction l as [|e l IH]; intros a; [reflexivity|].
  cbn. change (fold_left _ l ?x) with (Doubles.replay l x). now rewrite IH.
Qed.

Lemma doubles_replay_version l a :
  Doubles.gapless (Doubles.BankAccount.version a) l ->
  Doubles.BankAccount.version (Doubles.replay l a)
  = Doubles.BankAccount.version a + Z.of_nat (length l).
Proof.
  revert a. induction l as [|e l IH]; intros a H; cbn.
  - lia.
  - destruct H as [He Hl].
    change (fold_left _ l ?x) with (Doubles.replay l x).
    rewrite IH; cbn [Doubles.BankAccount.apply Doubles.BankAccount.version];
      rewrite He; [lia|assumption].
Qed.

Lemma doubles_gapless_app k l1 l2 :
  Doubles.gapless k (l1 ++ l2)
  <-> Doubles.gapless k l1 /\ Doubles.gapless (k + Z.of_nat (length l1)) l2.
Proof.
  revert k. induction l1 as [|e l1 IH]; intros k; cbn [app Doubles.gapless length].
  - rewrite Z.add_0_r. tauto.
  - rewrite IH.
    replace (k + 1 + Z.of_nat (length l1)) with (k + Z.of_nat (S (length l1))) by lia.
    tauto.
Qed.

Lemma doubles_gapless_lower j h :
  Doubles.gapless j h -> Forall (fun e => j < Doubles.Types.version e) h.
Proof.
  revert j. induction h as [|e h IH]; intros j Hg; [constructor|].
  destruct Hg as [He Hh]. constructor; [lia|].
  eapply Forall_impl; [apply IH, Hh|]. cbn. intros; lia.
Qed.

Lemma doubles_filter_version j (k : nat) h :
  Doubles.gapless j h ->
  filter (fun e => j + Z.of_nat k < Doubles.Types.version e) h = drop k h.
Proof.
  revert j k. induction h as [|e h IH]; intros j k Hg; [now destruct k|].
  destruct k as [|k].
  - rewrite drop_0. apply filter_all.
    eapply Forall_impl; [apply (doubles_gapless_lower _ _ Hg)|]. cbn. intros; lia.
  - destruct Hg as [He Hh]. rewrite filter_cons_False by lia. cbn [drop].
    rewrite <- (IH (j + 1) k Hh). apply list_filter_iff. intros; lia.
Qed.

Lemma doubles_filter_number (k : Z) h :
  Forall (fun e => Doubles.Types.eventNumber e = Doubles.Types.version e) h ->
  filter (fun e => k < Doubles.Types.eventNumber e) h
  = filter (fun e => k < Doubles.Types.version e) h.
Proof.
  induction 1 as [|e h He Hh IH]; [reflexivity|].
  rewrite !filter_cons, He, IH. reflexivity.
Qed.

(** A number that is neither NaN, nor infinite, nor negative zero comes
    back from JSON as it was. *)
Lemma json_number_exact (f : float) :
  match classify f with
  | FloatClass.NaN | FloatClass.PInf | FloatClass.NInf | FloatClass.NZero => False
  | _ => True
  end ->
  Doubles.json_number (Doubles.Types.Num f) = Doubles.Types.Num f.
Proof. unfold Doubles.json_number. now destruct (classify f). Qed.

(** Restoring the stored snapshot of an aggregate whose balance JSON
    writes as it is gives the aggregate back, its changes committed. *)
Lemma doubles_hydrate_snapshot_of a :
  Doubles.json_number (Doubles.Types.balance (Doubles.BankAccount.state a))
  = Doubles.Types.balance (Doubles.BankAccount.state a) ->
  Doubles.BankAccount.hydrate [] (Some (Doubles.snapshot_of a))
  = {| Doubles.BankAccount.state := Doubles.BankAccount.state a;
       Doubles.BankAccount.changes := [];
       Doubles.BankAccount.version := Doubles.BankAccount.version a |}.
Proof.
  destruct a as [[id owner b cur st ids] ch v]. cbn. intros Hb.
  unfold Doubles.BankAccount.hydrate. cbn.
  rewrite list_to_set_elements_L, Hb. reflexivity.
Qed.

Lemma doubles_snapshot_tail h (k : nat) :
  Doubles.gapless 0 h ->
  (k <= length h)%nat ->
  Doubles.json_number
    (Doubles.Types.balance
       (Doubles.BankAccount.state (Doubles.BankAccount.hydrate (take k h) None)))
  = Doubles.Types.balance
      (Doubles.BankAccount.state (Doubles.BankAccount.hydrate (take k h) None)) ->
  Doubles.BankAccount.hydrate (drop k h)
    (Some {| Doubles.BankAccount.data :=
               Doubles.jsonb
                 (Doubles.snapshotData (Doubles.BankAccount.hydrate (take k h) None));
             Doubles.BankAccount.lastEventNumber := Z.of_nat k |})
  = Doubles.BankAccount.hydrate h None.
Proof.
  intros Hg Hk Hb.
  set (a := Doubles.BankAccount.hydrate (take k h) None) in *.
  assert (Hv : Doubles.BankAccount.version a = Z.of_nat k).
  { unfold a. change (Doubles.BankAccount.hydrate (take k h) None)
      with (Doubles.replay (take k h) Doubles.BankAccount.new).
    rewrite doubles_replay_version.
    - rewrite length_take, Nat.min_l by exact Hk. cbn. lia.
    - rewrite <- (take_drop k h) in Hg. now apply doubles_gapless_app in Hg. }
  rewrite <- Hv.
  change {| Doubles.BankAccount.data := _; Doubles.BankAccount.lastEventNumber := _ |}
    with (Doubles.snapshot_of a).
  change (Doubles.BankAccount.hydrate (drop k h) (Some (Doubles.snapshot_of a)))
    with (Doubles.replay (drop k h)
            (Doubles.BankAccount.hydrate [] (Some (Doubles.snapshot_of a)))).
  rewrite (doubles_hydrate_snapshot_of a Hb).
  change (Doubles.BankAccount.hydrate h None)
    with (Doubles.replay h Doubles.BankAccount.new).
  rewrite <- (take_drop k h) at 2. rewrite doubles_replay_app. f_equal.
  change (Doubles.replay (take k h) Doubles.BankAccount.new) with a.
  assert (Hc : Doubles.BankAccount.changes a = [])
    by (unfold a; apply (doubles_replay_changes (take k h) Doubles.BankAccount.new)).
  destruct a as [st ch v]. cbn in Hc. subst ch. reflexivity.
Qed.

(** The claim as it is stated fails where the balance at the snapshot
    point is not finite.  An account created with 2^1023 and a deposit of
    2^1023 has the balance [Infinity]; the snapshot after these two
    events holds [null]; a deposit of 1 replayed onto it gives the
    balance 1, and replayed with the whole history [Infinity]. *)
Lemma snapshot_equivalence_counterexample :
  let e1 := {| Doubles.Types.eventId := "00000000-0000-4000-8000-000000000001";
               Doubles.Types.aggregateId := "A";
               Doubles.Types.aggregateType := "BankAccount";
               Doubles.Types.eventData :=
                 Doubles.Types.AccountCreatedData "ann" 0x1p+1023%float "USD";
               Doubles.Types.eventNumber := 1; Doubles.Types.timestamp := 10;
               Doubles.Types.version := 1 |} in
  let e2 := {| Doubles.Types.eventId := "00000000-0000-4000-8000-000000000002";
               Doubles.Types.aggregateId := "A";
               Doubles.Types.aggregateType := "BankAccount";
               Doubles.Types.eventData :=
                 Doubles.Types.MoneyDepositedData 0x1p+1023%float None "t1";
               Doubles.Types.eventNumber := 2; Doubles.Types.timestamp := 20;
               Doubles.Types.version := 2 |} in
  let e3 := {| Doubles.Types.eventId := "00000000-0000-4000-8000-000000000003";
               Doubles.Types.aggregateId := "A";
               Doubles.Types.aggregateType := "BankAccount";
               Doubles.Types.eventData :=
                 Doubles.Types.MoneyDepositedData 1%float None "t2";
               Doubles.Types.eventNumber := 3; Doubles.Types.timestamp := 30;
               Doubles.Types.version := 3 |} in
  let h := [e1; e2; e3] in
  let snapshot :=
    {| Doubles.BankAccount.data :=
         Doubles.jsonb (Doubles.snapshotData (Doubles.BankAccount.hydrate (take 2 h) None));
       Doubles.BankAccount.lastEventNumber := 2 |} in
  let tail := filter (fun e => 2 < Doubles.Types.eventNumber e) h in
  Doubles.gapless 0 h
  /\ Doubles.BankAccount.s_balance (Doubles.BankAccount.data snapshot) = Doubles.Types.Null
  /\ tail = [e3]
  /\ Doubles.Types.balance
       (Doubles.BankAccount.state (Doubles.BankAccount.hydrate tail (Some snapshot)))
     = Doubles.Types.Num 1%float
  /\ Doubles.Types.balance
       (Doubles.BankAccount.state (Doubles.BankAccount.hydrate h None))
     = Doubles.Types.Num PrimFloat.infinity
  /\ Doubles.BankAccount.hydrate tail (Some snapshot)
     <> Doubles.BankAccount.hydrate h None.
Proof.
  intros e1 e2 e3 h snapshot tail.
  assert (Htail : tail = [e3]) by reflexivity.
  split; [cbn; lia|]. split; [vm_compute; reflexivity|]. split; [exact Htail|].
  rewrite Htail. split; [vm_compute; reflexivity|]. split; [vm_compute; reflexivity|].
  intros Heq.
  apply (f_equal (fun a => match Doubles.Types.balance (Doubles.BankAccount.state a) with
                           | Doubles.Types.Num f => PrimFloat.is_infinity f
                           | Doubles.Types.Null => false
                           end)) in Heq.
  vm_compute in Heq. discriminate.
Qed.

(** C3, amended.  For a history whose events carry the versions 1, 2, ...
    in order and a snapshot point [k] within it at which the balance is
    a number that JSON writes as it is (finite, and not negative zero),
    hydrating from the serialized state after the first [k] events (the
    processed ids as a list), tagged [k], and replaying the events with
    version greater than [k] gives the same aggregate (state with
    balance, owner, currency, status and processed ids, version, and no
    uncommitted change) as replaying the whole history from scratch.
    The same holds selecting by event number, which equals the version
    on every stored event.  The amounts and the balance are doubles. *)
Theorem snapshot_equivalence (h : list Doubles.Types.DomainEvent) (k : nat) :
  Doubles.gapless 0 h ->
  (k <= length h)%nat ->
  Doubles.json_number
    (Doubles.Types.balance
       (Doubles.BankAccount.state (Doubles.BankAccount.hydrate (take k h) None)))
  = Doubles.Types.balance
      (Doubles.BankAccount.state (Doubles.BankAccount.hydrate (take k h) None)) ->
  let snapshot :=
    {| Doubles.BankAccount.data :=
         Doubles.jsonb (Doubles.snapshotData (Doubles.BankAccount.hydrate (take k h) None));
       Doubles.BankAccount.lastEventNumber := Z.of_nat k |} in
  Doubles.BankAccount.hydrate
    (filter (fun e => Z.of_nat k < Doubles.Types.version e) h) (Some snapshot)
  = Doubles.BankAccount.hydrate h None
  /\ (Forall (fun e => Doubles.Types.eventNumber e = Doubles.Types.version e) h ->
      Doubles.BankAccount.hydrate
        (filter (fun e => Z.of_nat k < Doubles.Types.eventNumber e) h) (Some snapshot)
      = Doubles.BankAccount.hydrate h None).
Proof.
  intros Hg Hk Hb snapshot.
  assert (H1 : Doubles.BankAccount.hydrate
                 (filter (fun e => Z.of_nat k < Doubles.Types.version e) h)
                 (Some snapshot)
               = Doubles.BankAccount.hydrate h None).
  { pose proof (doubles_filter_version 0 k h Hg) as Hf.
    change (0 + Z.of_nat k) with (Z.of_nat k) in Hf.
    rewrite Hf. now apply doubles_snapshot_tail. }
  split; [exact H1|].
  intros Hn. now rewrite (doubles_filter_number _ _ Hn).
Qed.

Lemma snapshot_equivalence_witness :
  let e1 := {| Doubles.Types.eventId := "00000000-0000-4000-8000-000000000001";
               Doubles.Types.aggregateId := "A";
               Doubles.Types.aggregateType := "BankAccount";
               Doubles.Types.eventData :=
                 Doubles.Types.AccountCreatedData "ann" 100.5%float "USD";
               Doubles.Types.eventNumber := 1; Doubles.Types.timestamp := 10;
               Doubles.Types.version := 1 |} in
  let e2 := {| Doubles.Types.eventId := "00000000-0000-4000-8000-000000000002";
               Doubles.Types.aggregateId := "A";
               Doubles.Types.aggregateType := "BankAccount";
               Doubles.Types.eventData :=
                 Doubles.Types.MoneyDepositedData 50.25%float None "t1";
               Doubles.Types.eventNumber := 2; Doubles.Types.timestamp := 20;
               Doubles.Types.version := 2 |} in
  let e3 := {| Doubles.Types.eventId := "00000000-0000-4000-8000-000000000003";
               Doubles.Types.aggregateId := "A";
               Doubles.Types.aggregateType := "BankAccount";
               Doubles.Types.eventData :=
                 Doubles.Types.MoneyWithdrawnData 30%float None "t2";
               Doubles.Types.eventNumber := 3; Doubles.Types.timestamp := 30;
               Doubles.Types.version := 3 |} in
  let h := [e1; e2; e3] in
  Doubles.BankAccount.hydrate
    (filter (fun e => Z.of_nat 2 < Doubles.Types.version e) h)
    (Some {| Doubles.BankAccount.data :=
               Doubles.jsonb
                 (Doubles.snapshotData (Doubles.BankAccount.hydrate (take 2 h) None));
             Doubles.BankAccount.lastEventNumber := Z.of_nat 2 |})
  = Doubles.BankAccount.hydrate h None.
Proof.
  intros e1 e2 e3 h.
  refine (proj1 (snapshot_equivalence h 2%nat _ _ _)).
  - cbn. lia.
  - cbn. lia.
  - vm_compute. reflexivity.
Defined.

End OnDoubles.



(** C2, as stated, fails: a retried withdrawal whose first attempt emptied
    the account throws "Insufficient funds", and the handler answers 409;
    a retried deposit on an account closed in the meantime throws
    "Account is closed". *)
Lemma duplicate_transaction_counterexample :
  let env u n := {| Routes.uuid := u; Routes.now := n |} in
  let a1 := snd (BankAccount.withdraw 100 None "t1" "u2" 2
                   (BankAccount.create "A" "ann" 100 "USD" "u1" 1)) in
  let a2 := snd (BankAccount.close None "u3" 3 a1) in
  let run1 := Routes.run [(Routes.PostAccounts "A" "ann" 100 "USD", env "u1" 1);
                          (Routes.PostWithdraw "A" 100 None "t1", env "u2" 2)] Schema.empty in
  ("t1" ∈ processedTransactionIds (BankAccount.state a1)
   /\ BankAccount.withdraw 100 None "t1" "u3" 3 a1 = (Throw ErrInsufficientFunds, a1))
  /\ ("t1" ∈ processedTransactionIds (BankAccount.state a2)
      /\ BankAccount.deposit 100 None "t1" "u4" 4 a2 = (Throw ErrAccountClosed, a2))
  /\ (Forall accepted (fst run1)
      /\ Routes.postWithdraw "A" 100 None "t1" (env "u3" 3) (snd run1)
         = (Routes.respond 409 (Routes.error "Insufficient funds"), snd run1)).
Proof.
  cbn zeta. split; [|split]; split; try reflexivity;
    vm_compute; first [set_solver | repeat constructor].
Qed.

(** C2, amended.  On an OPEN account, a deposit of a positive amount, or a
    withdrawal of a positive amount that the balance covers, whose
    transaction id is already among the processed ones is a no-op: it
    returns normally and the aggregate, its uncommitted events included,
    is unchanged.  Through the handlers, after any run of requests, such
    a request is accepted and leaves the database as it was. *)
Theorem duplicate_transaction_noop :
  (forall a amount description transactionId uuid now,
     status (BankAccount.state a) = OPEN ->
     0 < amount ->
     transactionId ∈ processedTransactionIds (BankAccount.state a) ->
     BankAccount.deposit amount description transactionId uuid now a = (Return, a)
     /\ (amount <= balance (BankAccount.state a) ->
         BankAccount.withdraw amount description transactionId uuid now a = (Return, a)))
  /\ (forall reqs id amount description t env,
        let db := snd (Routes.run reqs Schema.empty) in
        let a := Routes.loadBankAccount id db in
        history id db <> [] ->
        t <> EmptyString ->
        status (BankAccount.state a) = OPEN ->
        0 < amount ->
        t ∈ processedTransactionIds (BankAccount.state a) ->
        Routes.postDeposit id amount description t env db
        = (Routes.respond 202 (Routes.message "Deposit accepted"), db)
        /\ (amount <= balance (BankAccount.state a) ->
            Routes.postWithdraw id amount description t env db
            = (Routes.respond 202 (Routes.message "Withdrawal accepted"), db))).
Proof.
  split; [apply duplicate_noop|apply post_duplicate].
Qed.

Lemma duplicate_transaction_noop_witness :
  let a := snd (BankAccount.deposit 50 None "t1" "u2" 2
                  (BankAccount.create "A" "ann" 100 "USD" "u1" 1)) in
  BankAccount.deposit 50 None "t1" "u3" 3 a = (Return, a).
Proof.
  cbn zeta.
  refine (proj1 (proj1 duplicate_transaction_noop _ 50 None "t1" "u3" 3 _ _ _));
    [reflexivity | lia | vm_compute; set_solver].
Defined.

(** C8.  [close] succeeds only on an OPEN account whose balance is zero.
    On every reachable aggregate, closing with a non-zero balance fails
    with NonZeroBalance and closing a closed account fails with
    AlreadyClosed; a failed [close] leaves the aggregate as it was, so no
    event is recorded; a successful one records one AccountClosed event.
    Through [POST /accounts/:id/close], after any run of requests, both
    failures answer 409 with the error's message and leave the database
    as it was. *)
Theorem close_only_open_zero :
  (forall initial a reason uuid now,
     reachable initial a ->
     (balance (BankAccount.state a) <> 0 ->
        BankAccount.close reason uuid now a = (Throw ErrNonZeroBalance, a))
     /\ (status (BankAccount.state a) = CLOSED ->
           BankAccount.close reason uuid now a = (Throw ErrAlreadyClosed, a))
     /\ (forall ex a', BankAccount.close reason uuid now a = (Throw ex, a') ->
           a' = a /\ (ex = ErrNonZeroBalance \/ ex = ErrAlreadyClosed))
     /\ (forall a', BankAccount.close reason uuid now a = (Return, a') ->
           status (BankAccount.state a) = OPEN /\ balance (BankAccount.state a) = 0
           /\ status (BankAccount.state a') = CLOSED
           /\ exists e, eventData e = AccountClosedData reason
                        /\ BankAccount.changes a' = BankAccount.changes a ++ [e])
     /\ (status (BankAccount.state a) = OPEN -> balance (BankAccount.state a) = 0 ->
           fst (BankAccount.close reason uuid now a) = Return))
  /\ (forall reqs id reason env,
        let db := snd (Routes.run reqs Schema.empty) in
        let a := Routes.loadBankAccount id db in
        history id db <> [] ->
        (balance (BankAccount.state a) <> 0 ->
         Routes.postClose id reason env db
         = (Routes.respond 409
              (Routes.error "Cannot close account with non-zero balance"), db))
        /\ (status (BankAccount.state a) = CLOSED ->
            Routes.postClose id reason env db
            = (Routes.respond 409 (Routes.error "Account is already closed"), db))).
Proof.
  split.
  - intros initial a reason uuid now Hr.
    split; [now apply (close_nonzero initial)|].
    split; [apply close_closed|].
    split; [apply close_Throw|].
    split; [apply close_Return|apply close_open_zero].
  - apply postClose_rejected.
Qed.

Lemma close_only_open_zero_witness :
  BankAccount.close None "u2" 2 (BankAccount.create "A" "ann" 100 "USD" "u1" 1)
  = (Throw ErrNonZeroBalance, BankAccount.create "A" "ann" 100 "USD" "u1" 1).
Proof.
  refine (proj1 (proj1 close_only_open_zero 100 _ None "u2" 2
                   (reachable_create 100 "A" "ann" "USD" "u1" 1)) _).
  cbn. lia.
Defined.

(** C9, as stated, fails: [apply] assigns the event's own version.  A
    deposit numbered 2 applied to a fresh aggregate moves the version from
    0 to 2; the point-in-time query does so when the clock stepped back
    between the creation and the deposit. *)
Lemma version_advance_counterexample :
  let e := {| eventId := "u2"; aggregateId := "A"; aggregateType := "BankAccount";
              eventData := MoneyDepositedData 50 None "t1";
              eventNumber := 2; timestamp := 5; Types.version := 2 |} in
  let db := snd (Routes.run
                   [(Routes.PostAccounts "A" "ann" 100 "USD",
                     {| Routes.uuid := "u1"; Routes.now := 10 |});
                    (Routes.PostDeposit "A" 50 None "t1",
                     {| Routes.uuid := "u2"; Routes.now := 5 |})] Schema.empty) in
  BankAccount.version (BankAccount.apply e BankAccount.new)
    <> BankAccount.version BankAccount.new + 1
  /\ filter (fun e => Types.timestamp e ≤ 7) (EventStore.getEvents "A" 0 db) = [e].
Proof.
  cbn zeta. split; [cbn; lia|]. vm_compute. reflexivity.
Qed.

(** C9, amended.  Applying an event sets the aggregate's version to the
    version the event carries.  An event produced by a command carries the
    current version plus one, so an accepted command either changes
    nothing or advances the version by exactly 1, and [create] ends at
    version 1; replaying a run of events numbered without gaps after the
    aggregate's version advances the version by exactly 1 per event.  The
    histories written by the handlers are numbered without gaps from 1,
    and the version of a loaded aggregate is the number of its events. *)
Theorem version_follows_event :
  (forall a events,
     gapless (BankAccount.version a) events ->
     forall l1 e l2, events = l1 ++ e :: l2 ->
       BankAccount.version (replay (l1 ++ [e]) a)
       = BankAccount.version (replay l1 a) + 1)
  /\ (forall e a, BankAccount.version (BankAccount.apply e a) = Types.version e)
  /\ (forall c uuid now a a', execute c uuid now a = (Return, a') ->
        a' = a \/ BankAccount.version a' = BankAccount.version a + 1)
  /\ (forall id owner initial cur uuid now,
        BankAccount.version (BankAccount.create id owner initial cur uuid now)
        = BankAccount.version BankAccount.new + 1)
  /\ (forall reqs id,
        let db := snd (Routes.run reqs Schema.empty) in
        gapless 0 (history id db)
        /\ BankAccount.getVersion (Routes.loadBankAccount id db)
           = Z.of_nat (length (history id db))).
Proof.
  split; [intros a events Hg l1 e l2; now apply replay_step_version|].
  split; [reflexivity|].
  split; [intros c uuid now a a'; apply execute_version|].
  split; [reflexivity|].
  intros reqs id db. split; [|apply run_load].
  assert (Hdb : consistent db) by apply run_consistent, consistent_empty.
  apply well_formed_gapless, (Hdb id).
Qed.

Lemma version_follows_event_witness :
  let e1 := {| eventId := "u1"; aggregateId := "A"; aggregateType := "BankAccount";
               eventData := AccountCreatedData "ann" 100 "USD";
               eventNumber := 1; timestamp := 1; Types.version := 1 |} in
  let e2 := {| eventId := "u2"; aggregateId := "A"; aggregateType := "BankAccount";
               eventData := MoneyDepositedData 50 None "t1";
               eventNumber := 2; timestamp := 2; Types.version := 2 |} in
  BankAccount.version (replay ([e1] ++ [e2]) BankAccount.new)
  = BankAccount.version (replay [e1] BankAccount.new) + 1.
Proof.
  cbn zeta.
  refine (proj1 version_follows_event BankAccount.new [_; _] _ [_] _ [] eq_refl).
  cbn. lia.
Defined.




Lemma volume_cons rq rest : volume (rq :: rest) = volume [rq] + volume rest.
Proof. destruct rq as [[] env]; cbn; lia. Qed.


Lemma volume_app reqs1 reqs2 : volume (reqs1 ++ reqs2) = volume reqs1 + volume reqs2.
Proof.
  induction reqs1 as [|rq rest IH]; [reflexivity|].
  cbn [app]. rewrite (volume_cons rq (rest ++ reqs2)), (volume_cons rq rest), IH. lia.
Qed.






(** ** Balance of a session *)





(** ** Point-in-time balance *)

Section PointInTime.

Lemma StronglySorted_filter {A} (R : relation A) (P : A -> Prop)
    `{!forall x, Decision (P x)} (l : list A) :
  StronglySorted R l -> StronglySorted R (filter P l).
Proof.
  induction 1 as [|x l Hl IH Hx]; [constructor|].
  rewrite filter_cons. case_decide; [|exact IH].
  constructor; [exact IH|].
  rewrite Forall_forall in Hx |- *. intros y Hy.
  apply list_elem_of_filter in Hy. apply Hx. tauto.
Qed.



End PointInTime.


(** The scenario of the design: created with 100 at T0, 50 deposited at
    T1, 30 withdrawn at T2. *)
Example balance_at_scenario :
  let env u n := {| Routes.uuid := u; Routes.now := n |} in
  let db := snd (Routes.run
                   [(Routes.PostAccounts "A" "ann" 100 "USD", env "u0" 1000);
                    (Routes.PostDeposit "A" 50 None "t1", env "u1" 2000);
                    (Routes.PostWithdraw "A" 30 None "t2", env "u2" 3000)] Schema.empty) in
  Routes.getBalanceAt "A" (Some 1500) db = Routes.respond 200 (Routes.balanceAtJson "A" 100)
  /\ Routes.getBalanceAt "A" (Some 2500) db = Routes.respond 200 (Routes.balanceAtJson "A" 150)
  /\ Routes.getBalanceAt "A" (Some 3500) db = Routes.respond 200 (Routes.balanceAtJson "A" 120)
  /\ Routes.code (Routes.getBalanceAt "A" (Some 500) db) = 404.
Proof. cbn zeta. repeat split; vm_compute; reflexivity. Qed.

(** ** Rebuilding the read models *)

Section Rebuild.

Implicit Types (e : DomainEvent) (l : list DomainEvent) (db : Db).

Lemma replayed_cons e l db : replayed (e :: l) db = replayed l (Projector.project e db).
Proof. reflexivity. Qed.

Lemma replayed_app l1 l2 db : replayed (l1 ++ l2) db = replayed l2 (replayed l1 db).
Proof. unfold replayed. apply fold_left_app. Qed.

Lemma replayed_events l db : events (replayed l db) = events db.
Proof.
  revert db. induction l as [|e l IH]; intros db; [reflexivity|].
  rewrite replayed_cons, IH. apply project_events.
Qed.

Lemma replayed_snapshots l db : snapshots (replayed l db) = snapshots db.
Proof.
  revert db. induction l as [|e l IH]; intros db; [reflexivity|].
  rewrite replayed_cons, IH. apply project_snapshots.
Qed.

(** The rows of account [a] and of transaction id [t] after a replay
    depend on the events of [a] only, as long as [t] is used by no other
    account. *)
Lemma replayed_rows a t l db :
  (forall e, e ∈ l -> transaction_id e = Some t -> aggregateId e = a) ->
  (account_summaries (replayed l db) !! a, transaction_history (replayed l db) !! t)
  = fold_left (rows_step t) (filter (fun e => aggregateId e = a) l)
      (account_summaries db !! a, transaction_history db !! t).
Proof.
  revert db. induction l as [|e l IH]; intros db Ht; [reflexivity|].
  rewrite replayed_cons, IH by (intros; apply Ht; [now right|assumption]).
  rewrite project_summaries, project_transactions, filter_cons.
  destruct (decide (aggregateId e = a)) as [Ha|Ha].
  - subst a. rewrite decide_True by reflexivity. reflexivity.
  - rewrite decide_False by congruence. f_equal. f_equal.
    unfold transaction_step.
    destruct (transaction_history db !! t); [reflexivity|].
    destruct (skipped e _); [reflexivity|].
    case_decide as Hid; [|reflexivity].
    destruct Ha. apply Ht; [now left|exact Hid].
Qed.

Lemma replayed_summaries a l db :
  account_summaries (replayed l db) !! a
  = fold_left (fun row e => summary_step e row) (filter (fun e => aggregateId e = a) l)
      (account_summaries db !! a).
Proof.
  revert db. induction l as [|e l IH]; intros db; [reflexivity|].
  rewrite replayed_cons, IH, project_summaries, filter_cons.
  destruct (decide (aggregateId e = a)) as [Ha|Ha].
  - subst a. rewrite decide_True by reflexivity. reflexivity.
  - rewrite decide_False by congruence. reflexivity.
Qed.

(** Replays from databases with the same read models give the same read
    models. *)
Lemma replayed_models l db1 db2 :
  account_summaries db1 = account_summaries db2 ->
  transaction_history db1 = transaction_history db2 ->
  account_summaries (replayed l db1) = account_summaries (replayed l db2)
  /\ transaction_history (replayed l db1) = transaction_history (replayed l db2).
Proof.
  revert db1 db2. induction l as [|e l IH]; intros db1 db2 Hs Ht; [now split|].
  rewrite !replayed_cons. apply IH.
  - apply map_eq. intros a. now rewrite !project_summaries, Hs.
  - apply map_eq. intros t. now rewrite !project_transactions, Hs, Ht.
Qed.

Lemma ordered_sorted j h :
  gapless j h ->
  Forall (fun e => eventNumber e = Types.version e) h ->
  StronglySorted (fun x y => Types.timestamp x <= Types.timestamp y) h ->
  StronglySorted by_timestamp_number h.
Proof.
  revert j. induction h as [|e h IH]; intros j Hg Hn Hts; [constructor|].
  destruct Hg as [He Hg]. apply Forall_cons in Hn as [Hne Hn].
  apply StronglySorted_inv in Hts as [Hts Hte].
  constructor; [eauto|].
  pose proof (gapless_lower _ _ Hg) as Hl.
  rewrite Forall_forall in Hn, Hte, Hl |- *. intros y Hy.
  specialize (Hn _ Hy). specialize (Hte _ Hy). specialize (Hl _ Hy).
  unfold by_timestamp_number. lia.
Qed.

(** Sorting by (timestamp, event number) keeps the events of each
    account in the order they were appended. *)
Lemma sorted_history a l l' :
  histories_ordered l ->
  l' ≡ₚ l ->
  StronglySorted by_timestamp_number l' ->
  filter (fun e => aggregateId e = a) l' = filter (fun e => aggregateId e = a) l.
Proof.
  intros Ho Hp Hs. destruct (Ho a) as (Hg & Hn & Hts).
  apply (StronglySorted_unique_strong by_timestamp_number).
  - intros x1 x2 H1 H2 H12 H21. rewrite Hp in H1.
    apply (gapless_inj 0 _ x1 x2 Hg H1 H2).
    rewrite Forall_forall in Hn. rewrite <- (Hn _ H1), <- (Hn _ H2).
    unfold by_timestamp_number in *. lia.
  - now apply StronglySorted_filter.
  - now apply (ordered_sorted 0).
  - now rewrite Hp.
Qed.

(** Replaying the log sorted by (timestamp, event number) gives what
    replaying it in append order gives. *)
Lemma replayed_sorted l l' db :
  histories_ordered l ->
  transactions_local l ->
  l' ≡ₚ l ->
  StronglySorted by_timestamp_number l' ->
  replayed l' db = replayed l db.
Proof.
  intros Ho Hloc Hp Hs. apply Db_eq.
  - now rewrite !replayed_events.
  - now rewrite !replayed_snapshots.
  - apply map_eq. intros a.
    now rewrite !replayed_summaries, (sorted_history a l l').
  - apply map_eq. intros t.
    assert (Ha : exists a, forall e, e ∈ l -> transaction_id e = Some t -> aggregateId e = a).
    { destruct (decide (Exists (fun e => transaction_id e = Some t) l)) as [Hex|Hex].
      - apply Exists_exists in Hex as (e0 & He0 & Ht0). exists (aggregateId e0).
        intros e He Ht. now apply (Hloc e e0 t).
      - exists EmptyString. intros e He Ht. destruct Hex. apply Exists_exists. eauto. }
    destruct Ha as [a Ha].
    assert (Ha' : forall e, e ∈ l' -> transaction_id e = Some t -> aggregateId e = a).
    { intros e He. apply Ha. now rewrite <- Hp. }
    pose proof (replayed_rows a t l db Ha) as H1.
    pose proof (replayed_rows a t l' db Ha') as H2.
    rewrite (sorted_history a l l' Ho Hp Hs), <- H1 in H2.
    now apply (f_equal snd) in H2.
Qed.

End Rebuild.

Section RebuildWritePath.

Implicit Types (e : DomainEvent) (l : list DomainEvent) (db : Db).

Lemma execute_transaction c uuid now a e :
  execute c uuid now a = (Return, BankAccount.push e (BankAccount.apply e a)) ->
  transaction_id e = command_transaction c.
Proof.
  intros H.
  assert (Hne : a <> BankAccount.push e (BankAccount.apply e a)).
  { intros Heq. apply (f_equal (fun x => length (BankAccount.changes x))) in Heq.
    cbn in Heq. rewrite length_app in Heq. cbn in Heq. lia. }
  destruct c; cbn in H;
    unfold BankAccount.deposit, BankAccount.withdraw, BankAccount.close in H;
    repeat case_match; try discriminate H;
    pose proof (f_equal snd H) as Heq; cbn [snd] in Heq;
    first [ now destruct Hne
          | apply push_apply_inj in Heq; subst e; reflexivity ].
Qed.

(** What a request adds to the log: nothing, or one event of its account,
    stamped with the request's clock and carrying its transaction id. *)
Lemma outcome_commit req env db r db' :
  consistent db ->
  outcome req env db r db' ->
  db' = db
  \/ exists b a e,
       db' = commit b (account_of req) a e db
       /\ aggregateId e = account_of req
       /\ Types.timestamp e = Routes.now env
       /\ (forall t, transaction_id e = Some t -> transaction_of req = Some t).
Proof.
  intros Hdb Ho. destruct Ho as [r Hr | c r a Hc Hne Hex Hr
                               | id owner initial cur e r a Hreq Hi Hh Hch Hr
                               | c e r a Hc Hne Hex Hr]; auto; right.
  - subst a req. cbn in Hch. simplify_eq. do 3 eexists. split; [reflexivity|].
    cbn. repeat split. discriminate.
  - subst a. destruct (Hdb (account_of req)) as (Hwf & _ & _).
    pose proof (execute_transaction _ _ _ _ _ Hex) as Htx.
    apply execute_event in Hex as (_ & _ & Hagg & _ & Hts & _).
    rewrite (hydrate_accountId _ _ Hwf Hne (history_agg _ db)) in Hagg.
    do 3 eexists. split; [reflexivity|]. split; [exact Hagg|]. split; [exact Hts|].
    intros t Ht. unfold transaction_of. rewrite Hc. congruence.
Qed.

(** The events a run of requests appends, and the read models it leaves:
    those of projecting the new events in the order they were appended. *)
Lemma run_events reqs db :
  consistent db ->
  exists new,
    events (snd (Routes.run reqs db)) = events db ++ new
    /\ account_summaries (snd (Routes.run reqs db)) = account_summaries (replayed new db)
    /\ transaction_history (snd (Routes.run reqs db)) = transaction_history (replayed new db)
    /\ Forall (fun e => exists r, r ∈ reqs
                        /\ aggregateId e = account_of (fst r)
                        /\ Types.timestamp e = Routes.now (snd r)
                        /\ (forall t, transaction_id e = Some t ->
                                      transaction_of (fst r) = Some t)) new
    /\ (clock_monotone reqs ->
        StronglySorted (fun x y => aggregateId x = aggregateId y ->
                                   Types.timestamp x <= Types.timestamp y) new).
Proof.
  revert db. induction reqs as [|[req env] rest IH]; intros db Hdb.
  { exists []. cbn. rewrite app_nil_r. repeat split; constructor. }
  rewrite run_cons. cbn [snd].
  pose proof (handle_outcome req env db Hdb) as Ho.
  pose proof (handle_consistent req env db Hdb) as Hdb1.
  destruct (IH _ Hdb1) as (new & Hev & Hsum & Htx & Hfrom & Hclock).
  assert (Hlift : Forall (fun e => exists r, r ∈ (req, env) :: rest
                        /\ aggregateId e = account_of (fst r)
                        /\ Types.timestamp e = Routes.now (snd r)
                        /\ (forall t, transaction_id e = Some t ->
                                      transaction_of (fst r) = Some t)) new).
  { eapply Forall_impl; [exact Hfrom|]. cbn. intros e (r & Hr & H). exists r.
    split; [now right|exact H]. }
  destruct (outcome_commit _ _ _ _ _ Hdb Ho) as [Heq|(b & a & e & Heq & Hagg & Hts & Ht)];
    rewrite Heq in *.
  - exists new. repeat split; try assumption.
    intros Hc. apply Hclock. now apply StronglySorted_inv in Hc.
  - exists (e :: new). rewrite commit_events in Hev. rewrite <- app_assoc in Hev.
    split; [exact Hev|].
    destruct (replayed_models new (commit b (account_of req) a e db)
                (Projector.project e db)
                (commit_summaries _ _ _ _ _) (commit_transactions _ _ _ _ _)) as [Hs' Ht'].
    rewrite replayed_cons. split; [congruence|]. split; [congruence|].
    split.
    + constructor; [|exact Hlift]. exists (req, env). split; [now left|]. auto.
    + intros Hc. apply StronglySorted_inv in Hc as [Hc Hhead].
      constructor; [now apply Hclock|].
      rewrite Forall_forall in Hfrom. rewrite Forall_forall in Hhead.
      apply Forall_forall. intros y Hy Hxy.
      destruct (Hfrom _ Hy) as (r' & Hr' & Hagg' & Hts' & _).
      rewrite Hts, Hts'. apply (Hhead _ Hr'). cbn. congruence.
Qed.

Lemma filter_account_sorted a l :
  StronglySorted (fun x y => aggregateId x = aggregateId y ->
                             Types.timestamp x <= Types.timestamp y) l ->
  StronglySorted (fun x y => Types.timestamp x <= Types.timestamp y)
    (filter (fun e => aggregateId e = a) l).
Proof.
  induction 1 as [|x l Hl IH Hx]; [constructor|].
  rewrite filter_cons. case_decide as Ha; [|exact IH].
  constructor; [exact IH|].
  rewrite Forall_forall in Hx |- *. intros y Hy.
  apply list_elem_of_filter in Hy as [Hya Hy]. apply (Hx _ Hy). congruence.
Qed.

(** A run on a clock that never steps back for an account, with no
    transaction id shared between accounts, leaves a log whose replay, in
    any order sorted by (timestamp, event number), gives the read models
    the handlers left. *)
Lemma run_replayed reqs rows :
  clock_monotone reqs ->
  transactions_per_account reqs ->
  let db := snd (Routes.run reqs Schema.empty) in
  rows ≡ₚ events db ->
  StronglySorted by_timestamp_number rows ->
  replayed rows (Projector.truncate db) = db.
Proof.
  intros Hclock Htx db Hperm Hrows.
  assert (Hdb : consistent db) by apply run_consistent, consistent_empty.
  destruct (run_events reqs Schema.empty consistent_empty)
    as (new & Hev & Hsum & Htr & Hfrom & Hsorted).
  cbn [Schema.empty events app] in Hev. specialize (Hsorted Hclock).
  fold db in Hev, Hsum, Htr.
  assert (Hord : histories_ordered (events db)).
  { intros id. destruct (Hdb id) as ((Hg & Hn & _) & _ & _). unfold history in *.
    cbn zeta. split; [exact Hg|]. split; [exact Hn|].
    rewrite Hev. now apply filter_account_sorted. }
  assert (Hloc : transactions_local (events db)).
  { rewrite Hev. intros e1 e2 t H1 H2 Ht1 Ht2. rewrite Forall_forall in Hfrom.
    destruct (Hfrom _ H1) as (r1 & Hr1 & Ha1 & _ & Hq1).
    destruct (Hfrom _ H2) as (r2 & Hr2 & Ha2 & _ & Hq2).
    rewrite Ha1, Ha2. apply (Htx r1 r2 t); auto. }
  rewrite (replayed_sorted (events db) rows _ Hord Hloc Hperm Hrows).
  destruct (replayed_models (events db) (Projector.truncate db) Schema.empty eq_refl eq_refl)
    as [Hs Ht].
  apply Db_eq.
  - now rewrite replayed_events.
  - now rewrite replayed_snapshots.
  - rewrite Hs, Hsum, Hev. reflexivity.
  - rewrite Ht, Htr, Hev. reflexivity.
Qed.

Lemma run_rebuild reqs :
  clock_monotone reqs ->
  transactions_per_account reqs ->
  Projector.rebuild (snd (Routes.run reqs Schema.empty)) = snd (Routes.run reqs Schema.empty).
Proof.
  intros Hclock Htx. unfold Projector.rebuild.
  change (fold_left _ ?rows ?d) with (replayed rows d).
  cbn [Projector.truncate events].
  apply (run_replayed reqs _ Hclock Htx).
  - apply merge_sort_Permutation.
  - apply StronglySorted_merge_sort; apply _.
Qed.

End RebuildWritePath.

(** C6, as stated, fails twice.  When the clock steps back between two
    requests on one account, [rebuild] replays the deposit before the
    creation and the summary keeps the initial balance.  And when two
    accounts use the same transaction id at the same timestamp, [rebuild]
    replays the event with the smaller event number first, so the
    transaction row changes owner. *)
Lemma rebuild_counterexample :
  let env u n := {| Routes.uuid := u; Routes.now := n |} in
  let run1 := Routes.run [(Routes.PostAccounts "A" "ann" 100 "USD", env "u1" 10);
                          (Routes.PostDeposit "A" 50 None "t1", env "u2" 5)] Schema.empty in
  let run2 := Routes.run [(Routes.PostAccounts "A" "ann" 100 "USD", env "u1" 1);
                          (Routes.PostDeposit "A" 10 None "t0", env "u2" 2);
                          (Routes.PostAccounts "B" "bob" 100 "USD", env "u3" 3);
                          (Routes.PostDeposit "A" 50 None "t1", env "u4" 10);
                          (Routes.PostDeposit "B" 70 None "t1", env "u5" 10)] Schema.empty in
  (Forall accepted (fst run1)
   /\ SummaryRow.balance <$> account_summaries (snd run1) !! "A" = Some 150
   /\ SummaryRow.balance <$> account_summaries (Projector.rebuild (snd run1)) !! "A"
      = Some 100)
  /\ (Forall accepted (fst run2)
      /\ TransactionRow.account_id <$> transaction_history (snd run2) !! "t1" = Some "A"
      /\ TransactionRow.account_id
           <$> transaction_history (Projector.rebuild (snd run2)) !! "t1" = Some "B").
Proof.
  cbn zeta. split; (split; [vm_compute; repeat constructor|]);
    split; vm_compute; reflexivity.
Qed.

(** C6, amended.  For every history written by the handlers from an empty
    database, on a clock that never steps back between two requests on
    the same account and with no transaction id sent to two different
    accounts, [rebuild] (clear the read models, replay every event in
    (timestamp, event number) order through [project]) leaves the
    database as it was: the summary rows (balances, statuses, versions)
    and the transaction rows are those of the incremental projection,
    which are those of projecting the log in append order.  This holds
    however the rows with equal timestamp and event number are ordered. *)
Theorem rebuild_equals_incremental reqs :
  clock_monotone reqs ->
  transactions_per_account reqs ->
  let db := snd (Routes.run reqs Schema.empty) in
  Projector.rebuild db = db
  /\ (forall rows,
        rows ≡ₚ events db ->
        StronglySorted by_timestamp_number rows ->
        replayed rows (Projector.truncate db) = db)
  /\ account_summaries db = account_summaries (replayed (events db) Schema.empty)
  /\ transaction_history db = transaction_history (replayed (events db) Schema.empty).
Proof.
  intros Hclock Htx db. split; [now apply run_rebuild|].
  split; [intros rows; now apply run_replayed|].
  destruct (run_events reqs Schema.empty consistent_empty) as (new & Hev & Hsum & Htr & _).
  cbn [Schema.empty events app] in Hev. subst db. rewrite Hev. now split.
Qed.

Lemma rebuild_equals_incremental_witness :
  let env u n := {| Routes.uuid := u; Routes.now := n |} in
  let reqs := [(Routes.PostAccounts "A" "ann" 100 "USD", env "u1" 1);
               (Routes.PostAccounts "B" "bob" 0 "USD", env "u2" 1);
               (Routes.PostDeposit "B" 70 None "t1", env "u3" 2);
               (Routes.PostWithdraw "A" 30 None "t2", env "u4" 2)] in
  Projector.rebuild (snd (Routes.run reqs Schema.empty)) = snd (Routes.run reqs Schema.empty).
Proof.
  cbn zeta.
  refine (proj1 (rebuild_equals_incremental _ _ _)).
  - unfold clock_monotone. repeat constructor; cbn; intros; try lia; discriminate.
  - intros r1 r2 t H1 H2.
    repeat (apply elem_of_cons in H1 as [->|H1]); try (now inversion H1);
      repeat (apply elem_of_cons in H2 as [->|H2]); try (now inversion H2);
      cbn; intros; congruence.
Defined.

(** * Further properties of the engine *)

(** ** The snapshot store and the event queries *)



(** X2.  [getEvents] returns exactly the stored events of the aggregate
    whose version is greater than [fromVersion], each as often as it is
    stored, in ascending version order; it returns nothing exactly when no
    such event is stored, and a later [fromVersion] selects from the
    result the events above it. *)
Theorem getEvents_selects_sorted (id : string) (fromVersion : Z) (db : Db) :
  StronglySorted by_version (EventStore.getEvents id fromVersion db)
  /\ EventStore.getEvents id fromVersion db
     ≡ₚ filter (fun e => aggregateId e = id /\ fromVersion < Types.version e) (events db)
  /\ (forall e, e ∈ EventStore.getEvents id fromVersion db
                <-> e ∈ events db /\ aggregateId e = id /\ fromVersion < Types.version e)
  /\ (EventStore.getEvents id fromVersion db = []
      <-> Forall (fun e => ~ (aggregateId e = id /\ fromVersion < Types.version e))
                 (events db))
  /\ (forall later, fromVersion <= later ->
        EventStore.getEvents id later db
        ≡ₚ filter (fun e => later < Types.version e)
                  (EventStore.getEvents id fromVersion db)).
Proof.
  unfold EventStore.getEvents.
  split; [apply StronglySorted_merge_sort; apply _|].
  split; [apply merge_sort_Permutation|].
  split; [|split].
  - intros e. rewrite merge_sort_Permutation, list_elem_of_filter. tauto.
  - split.
    + intros Hnil. apply Forall_forall. intros e He HP.
      assert (Hin : e ∈ merge_sort by_version
                (filter (fun e => aggregateId e = id /\ fromVersion < Types.version e)
                        (events db))).
      { rewrite merge_sort_Permutation. apply list_elem_of_filter. tauto. }
      rewrite Hnil in Hin. inversion Hin.
    + intros Hall.
      assert (Hf : filter (fun e => aggregateId e = id /\ fromVersion < Types.version e)
                     (events db) = []).
      { induction Hall as [|e l He Hl IH]; [reflexivity|].
        rewrite filter_cons_False by exact He. exact IH. }
      rewrite Hf. reflexivity.
  - intros later Hle. rewrite !merge_sort_Permutation, list_filter_filter.
    rewrite (list_filter_iff
               (fun e => later < Types.version e
                         /\ (aggregateId e = id /\ fromVersion < Types.version e))
               (fun e => aggregateId e = id /\ later < Types.version e));
      [reflexivity|]. intros e. cbn. intuition lia.
Qed.

(** ** The projector, event by event *)

(** X3.  [project] writes to the read models of the event's account
    only: the event log and the snapshots are untouched, the summary rows
    of other accounts are untouched, and so is every transaction row
    other than the one keyed by the event's transaction id.  It deletes
    no summary row, and on an existing row it never lowers the version
    and never changes the owner or the currency. *)
Theorem project_frame (e : DomainEvent) (db : Db) :
  events (Projector.project e db) = events db
  /\ snapshots (Projector.project e db) = snapshots db
  /\ (forall id, id <> aggregateId e ->
        account_summaries (Projector.project e db) !! id = account_summaries db !! id)
  /\ (forall t, transaction_id e <> Some t ->
        transaction_history (Projector.project e db) !! t = transaction_history db !! t)
  /\ (forall id row,
        account_summaries db !! id = Some row ->
        exists row',
          account_summaries (Projector.project e db) !! id = Some row'
          /\ SummaryRow.version row <= SummaryRow.version row'
          /\ SummaryRow.owner_name row' = SummaryRow.owner_name row
          /\ SummaryRow.currency row' = SummaryRow.currency row).
Proof.
  split; [apply project_events|]. split; [apply project_snapshots|].
  split; [|split].
  - intros id Hne. rewrite project_summaries. now rewrite decide_False.
  - intros t Ht. rewrite project_transactions. unfold transaction_step.
    destruct (transaction_history db !! t); [reflexivity|].
    destruct (skipped e _); [reflexivity|]. now rewrite decide_False.
  - intros id row Hrow. rewrite project_summaries, Hrow.
    case_decide as Hid; [|exists row; repeat split; lia].
    unfold summary_step. destruct (skipped e (Some row)) eqn:Hs.
    { exists row. repeat split; lia. }
    unfold skipped, stored_version in Hs.
    destruct (eventData e) eqn:Hd; cbn.
    + exists row. repeat split; lia.
    + eexists. split; [reflexivity|]. cbn.
      unfold Types.eventType in Hs. rewrite Hd in Hs. cbn in Hs.
      rewrite andb_true_r in Hs. apply Z.leb_gt in Hs. repeat split; lia.
    + eexists. split; [reflexivity|]. cbn.
      unfold Types.eventType in Hs. rewrite Hd in Hs. cbn in Hs.
      rewrite andb_true_r in Hs. apply Z.leb_gt in Hs. repeat split; lia.
    + eexists. split; [reflexivity|]. cbn.
      unfold Types.eventType in Hs. rewrite Hd in Hs. cbn in Hs.
      rewrite andb_true_r in Hs. apply Z.leb_gt in Hs. repeat split; lia.
Qed.

(** X4.  Projections of events of two different accounts that do not
    share a transaction id commute: the read models do not depend on how
    the events of different accounts are interleaved. *)
Theorem project_commutes (e1 e2 : DomainEvent) (db : Db) :
  aggregateId e1 <> aggregateId e2 ->
  (forall t, transaction_id e1 = Some t -> transaction_id e2 <> Some t) ->
  Projector.project e1 (Projector.project e2 db)
  = Projector.project e2 (Projector.project e1 db).
Proof.
  intros Hagg Htx. apply Db_eq.
  - now rewrite !project_events.
  - now rewrite !project_snapshots.
  - apply map_eq. intros id. rewrite !project_summaries.
    repeat case_decide; congruence.
  - apply map_eq. intros t. rewrite !project_transactions, !project_summaries.
    rewrite (decide_False (P := aggregateId e1 = aggregateId e2)) by exact Hagg.
    rewrite (decide_False (P := aggregateId e2 = aggregateId e1)) by congruence.
    unfold transaction_step.
    destruct (transaction_history db !! t) as [r|]; [reflexivity|].
    destruct (decide (transaction_id e1 = Some t)) as [H1|H1].
    + rewrite (decide_False (P := transaction_id e2 = Some t)) by now apply Htx.
      destruct (skipped e2 _); destruct (skipped e1 _); try reflexivity;
        now destruct (transaction_row e1).
    + destruct (skipped e1 _); destruct (skipped e2 _); try reflexivity;
        destruct (decide (transaction_id e2 = Some t)); try reflexivity;
        now destruct (transaction_row e2).
Qed.

Lemma project_commutes_witness :
  let e1 := {| eventId := "u1"; aggregateId := "A"; aggregateType := "BankAccount";
               eventData := AccountCreatedData "ann" 100 "USD";
               eventNumber := 1; timestamp := 10; Types.version := 1 |} in
  let e2 := {| eventId := "u2"; aggregateId := "B"; aggregateType := "BankAccount";
               eventData := AccountCreatedData "bob" 5 "EUR";
               eventNumber := 1; timestamp := 11; Types.version := 1 |} in
  Projector.project e1 (Projector.project e2 Schema.empty)
  = Projector.project e2 (Projector.project e1 Schema.empty).
Proof.
  cbn zeta. apply project_commutes; [discriminate|]. cbn. discriminate.
Defined.


(** ** The handlers on any database *)

Section AnyDatabase.

Implicit Types (e : DomainEvent) (db : Db).

Lemma hydrate_changes_any l snapshot :
  BankAccount.changes (BankAccount.hydrate l snapshot) = [].
Proof.
  rewrite hydrate_replay, replay_changes. now destruct snapshot.
Qed.

Lemma save_changes_any id a e db :
  snd (Routes.save_changes id a [e] db) = db
  \/ (~ conflicts e db
      /\ ~ Exists (fun r => eventId r = eventId e) (events db)
      /\ Routes.save_changes id a [e] db = (Return, commit true id a e db)).
Proof.
  destruct (decide (conflicts e db)) as [Hc|Hc].
  - left. cbn. now rewrite (save_conflict _ _ Hc).
  - rewrite (save_changes_single _ _ _ _ Hc). case_bool_decide; [now left|].
    right. auto.
Qed.

Lemma command_any req c msg env db :
  command_of req = Some c ->
  let id := account_of req in
  let account := Routes.loadBankAccount id db in
  handled req env db
    (if BankAccount.getVersion account =? 0
     then (Routes.respond 404 (Routes.error "Account not found"), db)
     else
       match execute c (Routes.uuid env) (Routes.now env) account with
       | (Throw ex, _) =>
           (Routes.respond 409 (Routes.error (Routes.exception_message ex)), db)
       | (Return, account) =>
           match Routes.save_changes id account
                   (BankAccount.getUncommittedChanges account) db with
           | (Throw _, db) =>
               (Routes.respond 500 (Routes.error "Internal server error"), db)
           | (Return, db) => (Routes.respond 202 (Routes.message msg), db)
           end
       end).
Proof.
  intros Hc id account. unfold handled.
  assert (Hch : BankAccount.changes account = []) by apply hydrate_changes_any.
  destruct (_ =? 0); [now left|].
  destruct (execute c _ _ account) as [[|ex] a'] eqn:Hex; [|now left].
  destruct (execute_Return _ _ _ _ _ Hex) as [->|(e & -> & _ & _ & _ & Hid & Hts & _)].
  - unfold BankAccount.getUncommittedChanges. rewrite Hch. now left.
  - unfold BankAccount.getUncommittedChanges.
    cbn [BankAccount.changes BankAccount.push BankAccount.apply].
    rewrite !Hch. cbn [app]. subst account.
    destruct (save_changes_any id
                (BankAccount.push e (BankAccount.apply e (Routes.loadBankAccount id db)))
                e db) as [Hsame|(Hnc & Hfresh & Hsave)].
    + left. destruct (Routes.save_changes _ _ _ _) as [[|?] db']; exact Hsame.
    + right. rewrite Hsave. cbn. split; [reflexivity|]. eauto 10.
Qed.

Lemma handle_any req env db : handled req env db (Routes.handle req env db).
Proof.
  destruct req as [id owner initial cur|id amount d t|id amount d t|id reason];
    cbn [Routes.handle].
  - unfold Routes.postAccounts, handled.
    destruct (_ || _); [now left|].
    destruct (0 <? _); [now left|].
    unfold BankAccount.getUncommittedChanges.
    cbn [BankAccount.create BankAccount.changes BankAccount.push BankAccount.apply
         BankAccount.new app].
    match goal with
    | |- context [Routes.save_created [?ev] db] =>
        destruct (decide (conflicts ev db)) as [Hc|Hc];
        [left; cbn; now rewrite (save_conflict _ _ Hc)|];
        rewrite (save_created_single id
                   (BankAccount.create id owner initial cur
                      (Routes.uuid env) (Routes.now env)) ev db Hc)
    end.
    case_bool_decide as Hex; [now left|].
    right. split; [reflexivity|]. do 3 eexists. repeat split; try eassumption; reflexivity.
  - unfold Routes.postDeposit. destruct (_ || _); [now left|].
    exact (command_any (Routes.PostDeposit id amount d t) (Deposit amount d t)
             _ env db eq_refl).
  - unfold Routes.postWithdraw. destruct (_ || _); [now left|].
    exact (command_any (Routes.PostWithdraw id amount d t) (Withdraw amount d t)
             _ env db eq_refl).
  - exact (command_any (Routes.PostClose id reason) (Close reason) _ env db eq_refl).
Qed.

Lemma unique_keys_append e db db' :
  unique_keys db ->
  ~ conflicts e db ->
  ~ Exists (fun r => eventId r = eventId e) (events db) ->
  events db' = events db ++ [e] ->
  unique_keys db'.
Proof.
  intros [Hid Hnum] Hc Hfresh Hev. unfold unique_keys. rewrite Hev, !fmap_app.
  split.
  - apply NoDup_app. split; [exact Hid|]. split; [|apply NoDup_singleton].
    intros x Hx Hx'. apply list_elem_of_singleton in Hx'. subst x.
    apply list_elem_of_fmap in Hx as (r & Hr & Hin).
    apply Hfresh, Exists_exists. exists r. split; [exact Hin|congruence].
  - apply NoDup_app. split; [exact Hnum|]. split; [|apply NoDup_singleton].
    intros x Hx Hx'. apply list_elem_of_singleton in Hx'. subst x.
    apply list_elem_of_fmap in Hx as (r & Hr & Hin).
    apply Hc. unfold conflicts. apply Exists_exists. exists r.
    split; [exact Hin|]. split; congruence.
Qed.

Lemma unique_keys_save e db : unique_keys db -> unique_keys (snd (EventStore.save e db)).
Proof.
  intros Hu. destruct (decide (conflicts e db)) as [Hc|Hc].
  - now rewrite (save_conflict _ _ Hc).
  - rewrite (save_no_conflict _ _ Hc). case_bool_decide as Hex; [exact Hu|].
    now apply (unique_keys_append e db).
Qed.

Lemma unique_keys_handle req env db :
  unique_keys db -> unique_keys (snd (Routes.handle req env db)).
Proof.
  intros Hu. destruct (handle_any req env db) as [->|(_ & b & a & e & Hc & Hf & _ & _ & ->)];
    [exact Hu|]. apply (unique_keys_append e db); auto using commit_events.
Qed.

Lemma unique_keys_run reqs db :
  unique_keys db -> unique_keys (snd (Routes.run reqs db)).
Proof.
  revert db. induction reqs as [|[req env] rest IH]; intros db Hu; [exact Hu|].
  rewrite run_cons. cbn. apply IH. now apply unique_keys_handle.
Qed.

Lemma handle_appends req env db :
  exists new,
    events (snd (Routes.handle req env db)) = events db ++ new
    /\ (length new <= 1)%nat
    /\ (new <> [] -> accepted (fst (Routes.handle req env db)))
    /\ Forall (fun e => eventId e = Routes.uuid env
                        /\ Types.timestamp e = Routes.now env) new.
Proof.
  destruct (handle_any req env db) as [->|(Hacc & b & a & e & _ & _ & Hid & Hts & ->)].
  - exists []. rewrite app_nil_r. repeat split; [cbn; lia|congruence|constructor].
  - exists [e]. rewrite commit_events. repeat split; [cbn; lia|auto|].
    now repeat constructor.
Qed.

Lemma run_appends reqs db :
  events db `prefix_of` events (snd (Routes.run reqs db))
  /\ (length (events (snd (Routes.run reqs db)))
      <= length (events db)
         + length (filter accepted (fst (Routes.run reqs db))))%nat.
Proof.
  revert db. induction reqs as [|[req env] rest IH]; intros db.
  - cbn. split; [reflexivity|lia].
  - rewrite run_cons. cbn [fst snd].
    destruct (IH (snd (Routes.handle req env db))) as [Hp Hl].
    destruct (handle_appends req env db) as (new & Hev & Hlen & Hacc & _).
    rewrite Hev in Hp, Hl. split.
    + etransitivity; [|exact Hp]. now apply prefix_app_r.
    + rewrite length_app in Hl. rewrite filter_cons.
      destruct new as [|e new].
      * case_decide; cbn [length] in *; lia.
      * rewrite decide_True by (apply Hacc; discriminate). cbn [length] in *. lia.
Qed.

End AnyDatabase.

(** X6.  The event log is append-only under the handlers, whatever the
    database holds: a request leaves the stored events in place and
    appends at most one, stamped with the id and the time the handler
    drew, and only if it answers 202; a request that is not accepted
    changes no table at all.  Over a run of requests the log only grows,
    by at most one event per accepted request. *)
Theorem log_is_append_only :
  (forall req env db,
     (~ accepted (fst (Routes.handle req env db)) ->
      snd (Routes.handle req env db) = db)
     /\ exists new,
          events (snd (Routes.handle req env db)) = events db ++ new
          /\ (length new <= 1)%nat
          /\ (new <> [] -> accepted (fst (Routes.handle req env db)))
          /\ Forall (fun e => eventId e = Routes.uuid env
                              /\ Types.timestamp e = Routes.now env) new)
  /\ (forall reqs db,
        events db `prefix_of` events (snd (Routes.run reqs db))
        /\ (length (events (snd (Routes.run reqs db)))
            <= length (events db)
               + length (filter accepted (fst (Routes.run reqs db))))%nat).
Proof.
  split; [|apply run_appends].
  intros req env db. split; [|apply handle_appends].
  intros Hna. destruct (handle_any req env db) as [H|[Hacc _]]; [exact H|].
  now destruct Hna.
Qed.

(** X7.  The key constraints of the event log hold along every run: if no
    two stored events share an id, nor an aggregate id and event number,
    this is still so after [save], whether it stores the event or
    throws, and after any run of requests; so it is for every database
    the handlers reach from the empty one. *)
Theorem log_keys_stay_unique :
  (forall e db, unique_keys db -> unique_keys (snd (EventStore.save e db)))
  /\ (forall reqs db, unique_keys db -> unique_keys (snd (Routes.run reqs db)))
  /\ (forall reqs, unique_keys (snd (Routes.run reqs Schema.empty))).
Proof.
  split; [apply unique_keys_save|]. split; [apply unique_keys_run|].
  intros reqs. apply unique_keys_run. split; constructor.
Qed.

(** ** The databases the handlers reach *)

Section Reached.

Implicit Types (e : DomainEvent) (db : Db).

Lemma run_reached reqs : consistent (snd (Routes.run reqs Schema.empty)).
Proof. apply run_consistent, consistent_empty. Qed.

Lemma load_absent id db :
  consistent db -> history id db = [] -> Routes.loadBankAccount id db = BankAccount.new.
Proof.
  intros Hdb Hh. rewrite (load_consistent _ _ (Hdb id)), Hh. reflexivity.
Qed.

Lemma summary_consistent id db :
  consistent db ->
  account_summaries db !! id
  = match history id db with
    | [] => None
    | _ => Some (summary_of (Routes.loadBankAccount id db))
    end.
Proof.
  intros Hdb. rewrite (load_consistent _ _ (Hdb id)). apply (Hdb id).
Qed.

Lemma getEvents_consistent id db :
  consistent db -> EventStore.getEvents id 0 db = history id db.
Proof.
  intros Hdb. destruct (Hdb id) as (Hwf & _ & _).
  apply (getEvents_history id 0 db), well_formed_gapless, Hwf.
Qed.

Lemma numbered_from j h :
  gapless j h ->
  Forall (fun e => eventNumber e = Types.version e) h ->
  map eventNumber h = map (fun k => j + Z.of_nat k) (seq 1 (length h)).
Proof.
  revert j. induction h as [|e h IH]; intros j Hg Hn; [reflexivity|].
  destruct Hg as [Hv Hg]. apply Forall_cons in Hn as [He Hn].
  cbn [map length seq]. f_equal; [lia|].
  rewrite (IH _ Hg Hn), <- (seq_shift (length h) 1), map_map. apply map_ext. intros k. lia.
Qed.




End Reached.



(** X9.  After any run of requests [GET /accounts/:id/events] answers 404
    for an account without events and otherwise 200 with the account's
    events in the order they were appended; these are numbered 1, 2, ...
    without gaps, the first one is the AccountCreated event and no other
    one is. *)
Theorem account_events_lists_history (reqs : list (Routes.Request * Routes.Env))
    (id : string) :
  let db := snd (Routes.run reqs Schema.empty) in
  let h := history id db in
  Queries.getAccountEvents id db
  = match h with
    | [] => Queries.respond 404 (Queries.error "Account not found")
    | _ => Queries.respond 200 (Queries.eventsJson (map Queries.eventJson h))
    end
  /\ map eventNumber h = map Z.of_nat (seq 1 (length h))
  /\ match h with
     | [] => True
     | e :: rest =>
         eventType e = AccountCreated
         /\ Forall (fun e => eventType e <> AccountCreated) rest
     end.
Proof.
  intros db h. pose proof (run_reached reqs) as Hdb. fold db in Hdb.
  destruct (Hdb id) as ((Hg & Hn & Hshape) & _ & Hsum). fold h in Hg, Hn, Hshape, Hsum.
  split; [|split; [|exact Hshape]].
  - unfold Queries.getAccountEvents. rewrite (getEvents_consistent _ _ Hdb). fold h.
    rewrite Hsum. destruct h; [reflexivity|]. reflexivity.
  - rewrite (numbered_from 0 h Hg Hn). apply map_ext. intros k. lia.
Qed.

(** X10.  An account that was never created is unknown to every handler:
    after any run of requests, for an account without events, the account
    and event queries answer 404, the balance at any time is not found,
    and a close, a deposit or a withdrawal with valid input answers 404
    and leaves the database as it is. *)
Theorem unknown_account_not_found (reqs : list (Routes.Request * Routes.Env))
    (id : string) (env : Routes.Env) :
  let db := snd (Routes.run reqs Schema.empty) in
  history id db = [] ->
  Routes.getAccount id db = Routes.respond 404 (Routes.error "Account not found")
  /\ Queries.getAccountEvents id db = Queries.respond 404 (Queries.error "Account not found")
  /\ (forall target,
        Routes.getBalanceAt id (Some target) db
        = Routes.respond 404
            (Routes.error "No history found for this account at given time"))
  /\ (forall reason,
        Routes.postClose id reason env db
        = (Routes.respond 404 (Routes.error "Account not found"), db))
  /\ (forall amount description t,
        0 < amount -> t <> EmptyString ->
        Routes.postDeposit id amount description t env db
        = (Routes.respond 404 (Routes.error "Account not found"), db)
        /\ Routes.postWithdraw id amount description t env db
           = (Routes.respond 404 (Routes.error "Account not found"), db)).
Proof.
  intros db Hh. pose proof (run_reached reqs) as Hdb. fold db in Hdb.
  pose proof (summary_consistent id db Hdb) as Hsum. rewrite Hh in Hsum.
  pose proof (load_absent id db Hdb Hh) as Hload.
  pose proof (getEvents_consistent id db Hdb) as Hev. rewrite Hh in Hev.
  split; [|split; [|split; [|split]]].
  - unfold Routes.getAccount. now rewrite Hsum.
  - unfold Queries.getAccountEvents. now rewrite Hev, Hsum.
  - intros target. unfold Routes.getBalanceAt. now rewrite Hev.
  - intros reason. unfold Routes.postClose. now rewrite Hload.
  - intros amount description t Ha Ht.
    unfold Routes.postDeposit, Routes.postWithdraw.
    rewrite (proj2 (Z.leb_gt _ _) Ha), (bool_decide_eq_false_2 _ Ht), Hload.
    split; reflexivity.
Qed.

Lemma unknown_account_not_found_witness :
  let env := {| Routes.uuid := "u2"; Routes.now := 2 |} in
  let db := snd (Routes.run [(Routes.PostAccounts "A" "ann" 100 "USD",
                              {| Routes.uuid := "u1"; Routes.now := 1 |})] Schema.empty) in
  Routes.postDeposit "B" 5 None "t1" env db
  = (Routes.respond 404 (Routes.error "Account not found"), db).
Proof.
  intros env db.
  apply (unknown_account_not_found
           [(Routes.PostAccounts "A" "ann" 100 "USD",
             {| Routes.uuid := "u1"; Routes.now := 1 |})] "B" env);
    [vm_compute; reflexivity|lia|discriminate].
Defined.





(** ** One step of the write path *)

Section Steps.

Implicit Types (e : DomainEvent) (db : Db).

(** The event a handler commits on a consistent database is the next one
    of the account's history, and the projector does not skip it. *)
Lemma outcome_step req env db r db' :
  consistent db ->
  outcome req env db r db' ->
  db' = db
  \/ exists b a e,
       let id := account_of req in
       let h := history id db in
       db' = commit b id a e db
       /\ aggregateId e = id
       /\ eventNumber e = Z.of_nat (length h) + 1
       /\ skipped e (account_summaries db !! aggregateId e) = false
       /\ BankAccount.state a = BankAccount.state (BankAccount.hydrate (h ++ [e]) None)
       /\ ((b = false /\ h = [] /\ eventType e = AccountCreated)
           \/ (b = true /\ h <> []
               /\ exists c,
                    command_of req = Some c
                    /\ execute c (Routes.uuid env) (Routes.now env)
                         (BankAccount.hydrate h None)
                       = (Return, BankAccount.push e
                                    (BankAccount.apply e (BankAccount.hydrate h None))))).
Proof.
  intros Hdb Ho. destruct Ho as [r Hr | c r a Hc Hne Hex Hr
                               | id owner initial cur e r a Hreq Hi Hh Hch Hr
                               | c e r a Hc Hne Hex Hr]; auto; right.
  - subst a req. cbn in Hch. simplify_eq. do 3 eexists. cbn zeta.
    split; [reflexivity|]. cbn [account_of]. rewrite Hh.
    split; [reflexivity|]. split; [reflexivity|]. split.
    { unfold skipped. rewrite (bool_decide_eq_true_2 _ eq_refl). apply andb_false_r. }
    split; [reflexivity|]. left. now repeat split.
  - subst a. destruct (Hdb (account_of req)) as (Hwf & _ & Hsum).
    pose proof (execute_event _ _ _ _ _ Hex) as (Hv & Hnum & Hagg & _ & _ & Hty).
    rewrite (hydrate_version _ (well_formed_gapless _ Hwf)) in Hv, Hnum.
    rewrite (hydrate_accountId _ _ Hwf Hne (history_agg _ db)) in Hagg.
    do 3 eexists. cbn zeta. split; [reflexivity|].
    split; [exact Hagg|]. split; [exact Hnum|]. split; [|split].
    + rewrite Hagg, Hsum. unfold skipped.
      destruct (history (account_of req) db) as [|e0 h] eqn:Hh; [now destruct Hne|].
      cbn [stored_version summary_of SummaryRow.version].
      rewrite (hydrate_version _ (well_formed_gapless _ Hwf)).
      rewrite (proj2 (Z.leb_gt _ _)) by lia. reflexivity.
    + rewrite hydrate_snoc. reflexivity.
    + right. split; [reflexivity|]. split; [exact Hne|]. eauto.
Qed.

Lemma handle_step req env db :
  consistent db ->
  snd (Routes.handle req env db) = db
  \/ exists b a e,
       let id := account_of req in
       let h := history id db in
       snd (Routes.handle req env db) = commit b id a e db
       /\ aggregateId e = id
       /\ eventNumber e = Z.of_nat (length h) + 1
       /\ skipped e (account_summaries db !! aggregateId e) = false
       /\ BankAccount.state a = BankAccount.state (BankAccount.hydrate (h ++ [e]) None)
       /\ ((b = false /\ h = [] /\ eventType e = AccountCreated)
           \/ (b = true /\ h <> []
               /\ exists c,
                    command_of req = Some c
                    /\ execute c (Routes.uuid env) (Routes.now env)
                         (BankAccount.hydrate h None)
                       = (Return, BankAccount.push e
                                    (BankAccount.apply e (BankAccount.hydrate h None))))).
Proof.
  intros Hdb. eapply outcome_step; [exact Hdb|]. now apply handle_outcome.
Qed.

(** An invariant of consistent databases that every step keeps holds
    after every run from the empty database. *)
Lemma run_invariant (P : Db -> Prop) :
  P Schema.empty ->
  (forall req env db,
     consistent db -> P db -> P (snd (Routes.handle req env db))) ->
  forall reqs, P (snd (Routes.run reqs Schema.empty)).
Proof.
  intros H0 Hstep reqs.
  enough (forall db, consistent db -> P db -> P (snd (Routes.run reqs db))) as H
    by (apply H; [apply consistent_empty|exact H0]).
  induction reqs as [|[req env] rest IH]; intros db Hdb HP; [exact HP|].
  rewrite run_cons. cbn [snd]. apply IH; [now apply handle_consistent|now apply Hstep].
Qed.

End Steps.

(** ** The transaction table *)

Section Transactions.

Implicit Types (e : DomainEvent) (db : Db).







End Transactions.



(** ** Pages of transactions *)

Section Pagination.

Lemma slice_sorted {A} (R : relation A) (n m : nat) (l : list A) :
  StronglySorted R l -> StronglySorted R (take n (drop m l)).
Proof.
  intros Hl. rewrite <- (take_drop m l) in Hl. apply StronglySorted_app_1_r in Hl.
  rewrite <- (take_drop n (drop m l)) in Hl. now apply StronglySorted_app_1_l in Hl.
Qed.

Lemma slice_sublist {A} (n m : nat) (l : list A) : take n (drop m l) `sublist_of` l.
Proof. etransitivity; [apply sublist_take|apply sublist_drop]. Qed.

Lemma transactions_of_keys id db : NoDup (map fst (Queries.transactions_of id db)).
Proof.
  unfold Queries.transactions_of.
  apply (sublist_NoDup _ (map fst (map_to_list (transaction_history db))));
    [apply NoDup_fst_map_to_list|apply fmap_sublist, sublist_filter].
Qed.

Lemma transactions_of_rows id db kr :
  kr ∈ Queries.transactions_of id db
  <-> transaction_history db !! fst kr = Some (snd kr)
      /\ TransactionRow.account_id (snd kr) = id.
Proof.
  unfold Queries.transactions_of. rewrite list_elem_of_filter.
  destruct kr as [t row]. rewrite elem_of_map_to_list. cbn. tauto.
Qed.

Lemma ceiling_bounds (count pageSize : Z) :
  0 < pageSize ->
  (- (- count / pageSize) - 1) * pageSize < count <= - (- count / pageSize) * pageSize.
Proof.
  intros Hp. pose proof (Z.div_mod (- count) pageSize ltac:(lia)) as Hdm.
  pose proof (Z.mod_pos_bound (- count) pageSize Hp) as Hb. nia.
Qed.

End Pagination.

(** X14.  A page of [GET /accounts/:id/transactions], for a page number
    from 1 and a positive page size, is answered 200 with the number of
    the account's transaction rows as [totalCount] and its quotient by
    the page size, rounded up, as [totalPages]; the page holds as many
    items as are left after the pages before it, at most [pageSize],
    sorted by time with the latest first, each one a row of this
    account and no transaction twice; a page after the last one is
    empty, and a first page large enough lists every row.  A negative
    page size or offset, or a parameter that is not a number, is
    answered 500; a page size of 0 gives no items and no [totalPages]. *)
Theorem transactions_page (id : string) (db : Db) :
  let count := Z.of_nat (length (Queries.transactions_of id db)) in
  (forall page pageSize,
     1 <= page -> 0 < pageSize -> page * pageSize <= 9007199254740991 ->
     exists totalPages items,
       Queries.getTransactions id (Some page) (Some pageSize) db
       = Queries.respond 200
           (Queries.pageJson page pageSize (Some totalPages) count items)
       /\ (totalPages - 1) * pageSize < count <= totalPages * pageSize
       /\ Z.of_nat (length items)
          = Z.max 0 (Z.min pageSize (count - (page - 1) * pageSize))
       /\ StronglySorted (fun x y => Queries.t_timestamp y <= Queries.t_timestamp x) items
       /\ NoDup (map Queries.transactionId items)
       /\ (forall item,
             item ∈ items ->
             exists t row,
               transaction_history db !! t = Some row
               /\ TransactionRow.account_id row = id
               /\ item = Queries.transactionJson (t, row))
       /\ (totalPages < page -> items = [])
       /\ (page = 1 -> count <= pageSize ->
           items ≡ₚ map Queries.transactionJson (Queries.transactions_of id db)))
  /\ (forall page pageSize,
        pageSize < 0 \/ (page - 1) * pageSize < 0 ->
        Queries.getTransactions id (Some page) (Some pageSize) db
        = Queries.respond 500 (Queries.error "Internal server error"))
  /\ (forall other,
        Queries.getTransactions id None other db
        = Queries.respond 500 (Queries.error "Internal server error")
        /\ Queries.getTransactions id other None db
           = Queries.respond 500 (Queries.error "Internal server error"))
  /\ (forall page,
        Queries.getTransactions id (Some page) (Some 0) db
        = Queries.respond 200 (Queries.pageJson page 0 None count [])).
Proof.
  intros count. split; [|split; [|split]].
  - intros page pageSize Hpage Hsize _.
    set (sorted := merge_sort Queries.by_timestamp_desc (Queries.transactions_of id db)).
    assert (Hperm : sorted ≡ₚ Queries.transactions_of id db)
      by apply merge_sort_Permutation.
    assert (Hsorted : StronglySorted Queries.by_timestamp_desc sorted)
      by (apply StronglySorted_merge_sort; apply _).
    assert (Hlen : Z.of_nat (length sorted) = count)
      by (unfold count; now rewrite Hperm).
    set (offset := (page - 1) * pageSize).
    assert (Hoff : 0 <= offset) by (unfold offset; nia).
    set (rows := take (Z.to_nat pageSize) (drop (Z.to_nat offset) sorted)).
    exists (- (- count / pageSize)), (map Queries.transactionJson rows).
    split; [|split; [|split; [|split; [|split; [|split; [|split]]]]]].
    + unfold Queries.getTransactions. fold offset count sorted.
      rewrite (proj2 (Z.eqb_neq _ _)) by lia.
      rewrite (proj2 (Z.ltb_ge _ _)) by lia.
      rewrite (proj2 (Z.ltb_ge _ _)) by lia. reflexivity.
    + now apply ceiling_bounds.
    + unfold rows. rewrite length_map, length_take, length_drop. lia.
    + apply (StronglySorted_fmap _ Queries.by_timestamp_desc);
        [intros x y Hxy; exact Hxy|]. now apply slice_sorted.
    + rewrite map_map. cbn [Queries.transactionJson Queries.transactionId].
      apply (sublist_NoDup _ (map fst sorted)); [|apply fmap_sublist, slice_sublist].
      rewrite Hperm. apply transactions_of_keys.
    + intros item Hitem. apply list_elem_of_fmap in Hitem as ([t row] & -> & Hin).
      exists t, row.
      assert (Hin' : (t, row) ∈ Queries.transactions_of id db).
      { rewrite <- Hperm. eapply elem_of_sublist; [exact Hin|apply slice_sublist]. }
      apply transactions_of_rows in Hin' as [Hrow Hacc]. now repeat split.
    + intros Hlast. pose proof (ceiling_bounds count pageSize Hsize) as [_ Hc].
      assert (count <= offset) by (unfold offset; nia).
      unfold rows. rewrite drop_ge by lia. now rewrite take_nil.
    + intros -> Hall. unfold rows, offset.
      replace (Z.to_nat ((1 - 1) * pageSize)) with 0%nat by lia.
      rewrite drop_0, take_ge by lia. now rewrite Hperm.
  - intros page pageSize Hneg. unfold Queries.getTransactions.
    destruct (pageSize =? 0); destruct Hneg as [Hneg|Hneg].
    all: try (rewrite (proj2 (Z.ltb_lt _ _) Hneg); cbn [orb]; reflexivity).
    all: rewrite (proj2 (Z.ltb_lt ((page - 1) * pageSize) 0) Hneg), orb_true_r;
         reflexivity.
  - intros other. split; [reflexivity|]. now destruct other.
  - intros page. unfold Queries.getTransactions.
    rewrite Z.mul_0_r. cbn [Z.eqb Z.ltb Z.compare orb Z.to_nat take map]. reflexivity.
Qed.

Lemma transactions_page_witness :
  let env u n := {| Routes.uuid := u; Routes.now := n |} in
  let db := snd (Routes.run [(Routes.PostAccounts "A" "ann" 100 "USD", env "u1" 1);
                             (Routes.PostDeposit "A" 50 None "t1", env "u2" 2);
                             (Routes.PostWithdraw "A" 30 None "t2", env "u3" 3);
                             (Routes.PostDeposit "A" 5 None "t3", env "u4" 4)]
                   Schema.empty) in
  exists totalPages items,
    Queries.getTransactions "A" (Some 2) (Some 2) db
    = Queries.respond 200 (Queries.pageJson 2 2 (Some totalPages) 3 items)
    /\ (totalPages - 1) * 2 < 3 <= totalPages * 2
    /\ Z.of_nat (length items) = 1.
Proof.
  intros env db.
  destruct (transactions_page "A" db) as [Hpage _].
  destruct (Hpage 2 2 ltac:(lia) ltac:(lia) ltac:(lia))
    as (totalPages & items & Hresp & Hceil & Hlen & _).
  exists totalPages, items. split; [exact Hresp|]. split; [exact Hceil|exact Hlen].
Defined.

(** ** Snapshots every fifty events *)

Section Cadence.

Implicit Types (e : DomainEvent) (db : Db).







End Cadence.



(** ** The changes an aggregate collects *)

Section Changes.

Implicit Types (e : DomainEvent) (a : BankAccount.t).

Lemma execute_Throw c uuid now a ex a' :
  execute c uuid now a = (Throw ex, a') -> a' = a.
Proof.
  destruct c; cbn; unfold BankAccount.deposit, BankAccount.withdraw, BankAccount.close;
    repeat (case_decide || destruct (_ <=? _) || destruct (_ <? _) || destruct (negb _));
    intros Hthrow; inversion Hthrow; reflexivity.
Qed.

Lemma execute_all_snoc cmds c uuid now a :
  execute_all (cmds ++ [(c, uuid, now)]) a
  = snd (execute c uuid now (execute_all cmds a)).
Proof. unfold execute_all. rewrite fold_left_app. reflexivity. Qed.

Lemma execute_all_changes id owner initial cur uuid now cmds :
  let a := execute_all cmds (BankAccount.create id owner initial cur uuid now) in
  replay (BankAccount.changes a) BankAccount.new = BankAccount.markChangesAsCommitted a
  /\ well_formed (BankAccount.changes a)
  /\ Forall (fun e => aggregateId e = id) (BankAccount.changes a)
  /\ BankAccount.version a = Z.of_nat (length (BankAccount.changes a))
  /\ accountId (BankAccount.state a) = id
  /\ (1 <= length (BankAccount.changes a) <= 1 + length cmds)%nat.
Proof.
  induction cmds as [|[[c u] n] cmds IH] using rev_ind.
  - cbn. unfold well_formed. cbn. repeat split; repeat constructor.
  - cbn zeta. rewrite execute_all_snoc, length_app. cbn [length].
    set (a := execute_all cmds (BankAccount.create id owner initial cur uuid now)) in *.
    cbn zeta in IH. destruct IH as (Hre & Hwf & Hagg & Hv & Hid & Hlen).
    destruct (execute c u n a) as [[|ex] a'] eqn:Hex; cbn [snd].
    + destruct (execute_Return _ _ _ _ _ Hex)
        as [->|(e & -> & Hve & Hnum & Hagge & _ & _ & Hty)].
      * repeat (split; [assumption|]). lia.
      * cbn [BankAccount.changes BankAccount.push BankAccount.apply
             BankAccount.version BankAccount.state].
        assert (Hne : BankAccount.changes a <> [])
          by (intros E; rewrite E in Hlen; cbn in Hlen; lia).
        split; [|split; [|split; [|split; [|split]]]].
        -- rewrite replay_app, Hre. reflexivity.
        -- apply well_formed_snoc; [exact Hwf|exact Hne|lia|lia|exact Hty].
        -- rewrite Forall_app, Forall_singleton. split; [exact Hagg|congruence].
        -- rewrite length_app. cbn [length]. lia.
        -- change (accountId (BankAccount.state (replay [e] a)) = id).
           rewrite replay_accountId; [exact Hid|]. now repeat constructor.
        -- rewrite length_app. cbn [length]. lia.
    + apply execute_Throw in Hex. subst a'. repeat (split; [assumption|]). lia.
Qed.

End Changes.

(** X16.  The uncommitted changes of an aggregate are its whole story: for
    an aggregate created and then sent any commands, the changes it
    collected are numbered 1, 2, ... with the AccountCreated event first,
    all carry the account's id, there is one for the creation and at most
    one per command, the version is their number, and replaying them with
    [hydrate] gives back the aggregate with its changes marked as
    committed. *)
Theorem uncommitted_changes_replay (id owner : string) (initial : Z) (cur : string)
    (uuid : string) (now : Z) (cmds : list (Command * string * Z)) :
  let a := execute_all cmds (BankAccount.create id owner initial cur uuid now) in
  let changes := BankAccount.getUncommittedChanges a in
  BankAccount.hydrate changes None = BankAccount.markChangesAsCommitted a
  /\ BankAccount.getUncommittedChanges (BankAccount.markChangesAsCommitted a) = []
  /\ well_formed changes
  /\ Forall (fun e => aggregateId e = id) changes
  /\ BankAccount.getVersion a = Z.of_nat (length changes)
  /\ BankAccount.getId a = id
  /\ (1 <= length changes <= 1 + length cmds)%nat.
Proof.
  intros a changes.
  destruct (execute_all_changes id owner initial cur uuid now cmds)
    as (Hre & Hwf & Hagg & Hv & Hid & Hlen).
  fold a in Hre, Hwf, Hagg, Hv, Hid, Hlen.
  split; [rewrite hydrate_None; exact Hre|]. split; [reflexivity|].
  repeat split; assumption || apply Hwf || apply Hlen.
Qed.

(** ** Closed accounts *)

Section Closed.

Implicit Types (e : DomainEvent) (db : Db).

Lemma execute_closed c uuid now a :
  status (BankAccount.state a) = CLOSED -> fst (execute c uuid now a) <> Return.
Proof.
  intros Hc. destruct c; cbn;
    unfold BankAccount.deposit, BankAccount.withdraw, BankAccount.close;
    rewrite decide_True by exact Hc; discriminate.
Qed.

Lemma outcome_closed req env db r db' id :
  consistent db ->
  outcome req env db r db' ->
  history id db <> [] ->
  status (BankAccount.state (BankAccount.hydrate (history id db) None)) = CLOSED ->
  history id db' = history id db
  /\ (account_of req = id -> ~ accepted r).
Proof.
  intros Hdb Ho Hne Hcl. destruct Ho as [r Hr | c r a Hc Hne' Hex Hr
                                   | id0 owner initial cur e r a Hreq Hi Hh Hch Hr
                                   | c e r a Hc Hne' Hex Hr].
  - split; [reflexivity|]. intros _. exact Hr.
  - split; [reflexivity|]. intros Hid. subst a. rewrite Hid in Hex.
    pose proof (execute_closed c (Routes.uuid env) (Routes.now env) _ Hcl) as Hno.
    rewrite Hex in Hno. now destruct Hno.
  - subst a req. cbn in Hch. simplify_eq. cbn [account_of].
    destruct (decide (id0 = id)) as [->|Hid]; [now destruct Hne|].
    split; [|intros E; now destruct Hid].
    rewrite commit_history. cbn [aggregateId].
    rewrite decide_False by exact Hid. apply app_nil_r.
  - subst a. destruct (decide (account_of req = id)) as [Hid|Hid].
    + rewrite Hid in Hex.
      pose proof (execute_closed c (Routes.uuid env) (Routes.now env) _ Hcl) as Hno.
      rewrite Hex in Hno. now destruct Hno.
    + split; [|intros E; now destruct Hid].
      destruct (Hdb (account_of req)) as (Hwf & _ & _).
      apply execute_event in Hex as (_ & _ & Hagg & _).
      rewrite (hydrate_accountId _ _ Hwf Hne' (history_agg _ db)) in Hagg.
      rewrite commit_history, Hagg. rewrite decide_False by exact Hid. apply app_nil_r.
Qed.

Lemma run_closed later db id :
  consistent db ->
  history id db <> [] ->
  status (BankAccount.state (BankAccount.hydrate (history id db) None)) = CLOSED ->
  history id (snd (Routes.run later db)) = history id db
  /\ Forall2 (fun rq r => account_of (fst rq) = id -> ~ accepted r)
       later (fst (Routes.run later db)).
Proof.
  revert db. induction later as [|[req env] rest IH]; intros db Hdb Hne Hcl.
  - split; [reflexivity|constructor].
  - rewrite run_cons. cbn [fst snd].
    destruct (outcome_closed req env db _ _ id Hdb (handle_outcome req env db Hdb) Hne Hcl)
      as [Hh Hacc].
    destruct (IH (snd (Routes.handle req env db))) as [Hh' Hall].
    + now apply handle_consistent.
    + now rewrite Hh.
    + now rewrite Hh.
    + split; [now rewrite Hh'|]. constructor; [exact Hacc|exact Hall].
Qed.

End Closed.

(** X17.  A closed account stays as it is: once an account with events
    is closed, after any run of requests, no later request on it is
    accepted, whatever the later requests are, and its events, the
    aggregate a handler loads for it and the answer of
    [GET /accounts/:id] stay the same. *)
Theorem closed_account_is_frozen (reqs later : list (Routes.Request * Routes.Env))
    (id : string) :
  let db := snd (Routes.run reqs Schema.empty) in
  let result := Routes.run later db in
  history id db <> [] ->
  status (BankAccount.state (Routes.loadBankAccount id db)) = CLOSED ->
  history id (snd result) = history id db
  /\ Routes.loadBankAccount id (snd result) = Routes.loadBankAccount id db
  /\ Routes.getAccount id (snd result) = Routes.getAccount id db
  /\ Forall2 (fun rq r => account_of (fst rq) = id -> ~ accepted r) later (fst result).
Proof.
  intros db result Hne Hcl. pose proof (run_reached reqs) as Hdb. fold db in Hdb.
  assert (Hdb' : consistent (snd result)) by now apply run_consistent.
  rewrite (load_consistent _ _ (Hdb id)) in Hcl.
  destruct (run_closed later db id Hdb Hne Hcl) as [Hh Hall]. fold result in Hh, Hall.
  assert (Hload : Routes.loadBankAccount id (snd result) = Routes.loadBankAccount id db)
    by now rewrite (load_consistent _ _ (Hdb' id)), (load_consistent _ _ (Hdb id)), Hh.
  split; [exact Hh|]. split; [exact Hload|]. split; [|exact Hall].
  unfold Routes.getAccount.
  now rewrite (summary_consistent _ _ Hdb'), (summary_consistent _ _ Hdb), Hh, Hload.
Qed.

Lemma closed_account_is_frozen_witness :
  let env u n := {| Routes.uuid := u; Routes.now := n |} in
  let reqs := [(Routes.PostAccounts "A" "ann" 0 "USD", env "u1" 1);
               (Routes.PostClose "A" None, env "u2" 2)] in
  let later := [(Routes.PostDeposit "A" 5 None "t1", env "u3" 3)] in
  let db := snd (Routes.run reqs Schema.empty) in
  Routes.getAccount "A" (snd (Routes.run later db)) = Routes.getAccount "A" db.
Proof.
  intros env reqs later db.
  apply (closed_account_is_frozen reqs later "A").
  - vm_compute. discriminate.
  - vm_compute. reflexivity.
Defined.

(** ** The balance at a time, with a clock that never steps back *)

Section PastBalance.

Implicit Types (e : DomainEvent) (db : Db).





End PastBalance.



(** ** The handlers and the aggregate *)

Section Refinement.

Implicit Types (e : DomainEvent) (db : Db).




End Refinement.



(** ** The life of an account *)

Section Lifecycle.

Implicit Types (e : DomainEvent) (db : Db).

Lemma apply_status e a :
  status (BankAccount.state (BankAccount.apply e a))
  = match eventData e with
    | AccountCreatedData _ _ _ => OPEN
    | AccountClosedData _ => CLOSED
    | _ => status (BankAccount.state a)
    end.
Proof. unfold BankAccount.apply. cbn. now destruct (eventData e). Qed.

Lemma lifecycle_created e : eventType e = AccountCreated -> lifecycle [e].
Proof.
  intros Hty. unfold lifecycle.
  change (BankAccount.hydrate [e] None) with (BankAccount.apply e BankAccount.new).
  rewrite apply_status. unfold eventType in Hty.
  destruct (eventData e) eqn:Hd; try discriminate.
  split; [discriminate|]. repeat constructor. unfold eventType. now rewrite Hd.
Qed.

Lemma lifecycle_snoc h e :
  lifecycle h ->
  status (BankAccount.state (BankAccount.hydrate h None)) = OPEN ->
  eventType e <> AccountCreated ->
  lifecycle (h ++ [e]).
Proof.
  unfold lifecycle. intros Hl Hopen Hty. rewrite Hopen in Hl. destruct Hl as [Hne Hall].
  rewrite hydrate_snoc, apply_status. unfold eventType in Hty.
  destruct (eventData e) eqn:Hd; try (now destruct Hty); rewrite ?Hopen.
  - split; [now destruct h|]. rewrite Forall_app, Forall_singleton.
    split; [exact Hall|]. unfold eventType. now rewrite Hd.
  - split; [now destruct h|]. rewrite Forall_app, Forall_singleton.
    split; [exact Hall|]. unfold eventType. now rewrite Hd.
  - right. exists h, e. split; [reflexivity|]. split; [|exact Hall].
    unfold eventType. now rewrite Hd.
Qed.

Lemma run_lifecycle reqs id : lifecycle (history id (snd (Routes.run reqs Schema.empty))).
Proof.
  revert id. apply (run_invariant (fun db => forall id, lifecycle (history id db))).
  - intros id. unfold lifecycle. cbn. now left.
  - intros req env db Hdb IH id.
    destruct (handle_step req env db Hdb) as [->|(b & a & e & Hstep)]; [apply IH|].
    cbn zeta in Hstep. destruct Hstep as (-> & Hagg & _ & _ & _ & Hb).
    rewrite commit_history.
    destruct (decide (aggregateId e = id)) as [Hid|Hid]; [|rewrite app_nil_r; apply IH].
    rewrite Hagg in Hid. subst id.
    destruct Hb as [(_ & Hh & Hty)|(_ & Hne & c & Hc & Hex)].
    + rewrite Hh. now apply lifecycle_created.
    + apply lifecycle_snoc; [apply IH| |].
      * pose proof (execute_closed c (Routes.uuid env) (Routes.now env)
                      (BankAccount.hydrate (history (account_of req) db) None)) as Hcl.
        rewrite Hex in Hcl.
        destruct (status _); [reflexivity|]. now destruct Hcl.
      * now apply execute_event in Hex.
Qed.

End Lifecycle.

(** X20.  The events of an account tell its life: after any run of
    requests, an account that loads as OPEN has events and none of them
    is AccountClosed; an account that loads as CLOSED has no events at
    all, or its last event is AccountClosed and no earlier one is, and
    its balance is 0. *)
Theorem account_lifecycle (reqs : list (Routes.Request * Routes.Env)) (id : string) :
  let db := snd (Routes.run reqs Schema.empty) in
  let h := history id db in
  let st := BankAccount.state (Routes.loadBankAccount id db) in
  (status st = OPEN ->
   h <> [] /\ Forall (fun e => eventType e <> AccountClosed) h)
  /\ (status st = CLOSED ->
      balance st = 0
      /\ (h = []
          \/ exists l e,
               h = l ++ [e] /\ eventType e = AccountClosed
               /\ Forall (fun e => eventType e <> AccountClosed) l)).
Proof.
  intros db h st. pose proof (run_lifecycle reqs id) as Hl. fold db in Hl. fold h in Hl.
  destruct (run_load reqs id) as (Hload & _ & Hreach). fold db in Hload, Hreach.
  fold h in Hload, Hreach. unfold lifecycle in Hl. subst st. rewrite Hload in *.
  split.
  - intros Hopen. now rewrite Hopen in Hl.
  - intros Hcl. rewrite Hcl in Hl. split; [|exact Hl].
    destruct h as [|e h']; [reflexivity|].
    destruct Hreach as (initial & _ & Hre); [discriminate|].
    exact (reachable_closed_zero _ _ Hre Hcl).
Qed.

Lemma account_lifecycle_witness :
  let env u n := {| Routes.uuid := u; Routes.now := n |} in
  let db := snd (Routes.run [(Routes.PostAccounts "A" "ann" 0 "USD", env "u1" 1);
                             (Routes.PostClose "A" None, env "u2" 2)] Schema.empty) in
  balance (BankAccount.state (Routes.loadBankAccount "A" db)) = 0.
Proof.
  intros env db.
  apply (proj2 (account_lifecycle
                  [(Routes.PostAccounts "A" "ann" 0 "USD", env "u1" 1);
                   (Routes.PostClose "A" None, env "u2" 2)] "A")).
  vm_compute. reflexivity.
Defined.

(** ** Transactions listed for an account *)

Section Listed.

Implicit Types (e : DomainEvent) (db : Db).











End Listed.



(** ** Accounts do not interfere *)

Section Isolation.

Implicit Types (e : DomainEvent) (db : Db).

Lemma handle_other req env db id :
  consistent db ->
  account_of req <> id ->
  let db' := snd (Routes.handle req env db) in
  history id db' = history id db
  /\ account_summaries db' !! id = account_summaries db !! id
  /\ snapshots db' !! id = snapshots db !! id.
Proof.
  intros Hdb Hid db'. subst db'.
  destruct (handle_step req env db Hdb) as [->|(b & a & e & Hstep)]; [now repeat split|].
  cbn zeta in Hstep. destruct Hstep as (-> & Hagg & _).
  rewrite commit_history, commit_summaries, commit_snapshots, project_summaries, Hagg.
  rewrite decide_False by exact Hid. rewrite decide_False by congruence.
  split; [apply app_nil_r|]. split; [reflexivity|].
  destruct (b && _); [|reflexivity]. now rewrite lookup_insert_ne.
Qed.

End Isolation.

(** X22.  Accounts do not interfere: after any run of requests, a request
    on one account leaves every other account as it was, whatever the
    request's outcome: the other account's events, summary row and
    snapshot, the aggregate a handler loads for it, and the answers of its
    account, events and balance-at queries are the same before and after. *)
Theorem accounts_are_isolated (reqs : list (Routes.Request * Routes.Env))
    (req : Routes.Request) (env : Routes.Env) (id : string) :
  let db := snd (Routes.run reqs Schema.empty) in
  let db' := snd (Routes.handle req env db) in
  account_of req <> id ->
  history id db' = history id db
  /\ account_summaries db' !! id = account_summaries db !! id
  /\ EventStore.getSnapshot id db' = EventStore.getSnapshot id db
  /\ Routes.loadBankAccount id db' = Routes.loadBankAccount id db
  /\ Routes.getAccount id db' = Routes.getAccount id db
  /\ Queries.getAccountEvents id db' = Queries.getAccountEvents id db
  /\ (forall target, Routes.getBalanceAt id target db' = Routes.getBalanceAt id target db).
Proof.
  intros db db' Hid. pose proof (run_reached reqs) as Hdb. fold db in Hdb.
  assert (Hdb' : consistent db') by now apply handle_consistent.
  destruct (handle_other req env db id Hdb Hid) as (Hh & Hsum & Hsnap).
  fold db' in Hh, Hsum, Hsnap.
  pose proof (getEvents_consistent id db Hdb) as Hev.
  pose proof (getEvents_consistent id db' Hdb') as Hev'.
  split; [exact Hh|]. split; [exact Hsum|].
  split; [unfold EventStore.getSnapshot; now rewrite Hsnap|].
  split; [now rewrite (load_consistent _ _ (Hdb' id)), (load_consistent _ _ (Hdb id)), Hh|].
  split; [unfold Routes.getAccount; now rewrite Hsum|].
  split; [unfold Queries.getAccountEvents; now rewrite Hev, Hev', Hh, Hsum|].
  intros [target|]; [|reflexivity].
  unfold Routes.getBalanceAt. now rewrite Hev, Hev', Hh.
Qed.

Lemma accounts_are_isolated_witness :
  let env u n := {| Routes.uuid := u; Routes.now := n |} in
  let db := snd (Routes.run [(Routes.PostAccounts "A" "ann" 100 "USD", env "u1" 1);
                             (Routes.PostAccounts "B" "bob" 20 "USD", env "u2" 2)]
                   Schema.empty) in
  Routes.getAccount "A" (snd (Routes.handle (Routes.PostWithdraw "B" 5 None "t1")
                                (env "u3" 3) db))
  = Routes.getAccount "A" db.
Proof.
  intros env db.
  apply (accounts_are_isolated
           [(Routes.PostAccounts "A" "ann" 100 "USD", env "u1" 1);
            (Routes.PostAccounts "B" "bob" 20 "USD", env "u2" 2)]
           (Routes.PostWithdraw "B" 5 None "t1") (env "u3" 3) "A").
  discriminate.
Defined.
